(** * LawChatBot dialogue service: a verification model

    A shallow embedding of [dialogue_service.py]: the crypto-at-rest helpers
    [encrypt_data] / [decrypt_data], the collaborator calls [call_service],
    [get_ml_response] and [check_authorization], and the request handlers
    [process_message], [log_message], [get_full_answer] and
    [get_dialog_history].

    Conventions of the model.
    - A Python [str] is a list of code points ([N]); a [bytes] object is a
      list of [Byte.byte].  Integers are [Z].
    - A Python call either returns a value or raises: [result].
    - Handlers run in the monad [M]: they thread a [world] (the [dialogs]
      table, the collaborators reachable over HTTP, the entropy source, the
      clock and the trace of observable events) and may raise.
    - One request is handled from start to end without interleaving; the
      database is reachable; BIGINT and TEXT columns hold every value they
      are given.

    Part I holds the model, Part II the lemmas and theorems about it, with
    the notions they are stated in. *)

From Stdlib Require Import List ZArith NArith Lia Bool Ascii String Btauto.
From Stdlib Require Import Sorting.Sorted Sorting.Permutation.
From Stdlib.Strings Require Import Byte.
Import ListNotations.

Set Warnings "-register-all".


(* ################################################################# *)
(** * Part I: the model *)

(* ================================================================= *)
(** ** Python values *)

Definition pystr := list N.
Definition bytes := list byte.

(** The exceptions the modelled code can raise.  All of them derive from
    [Exception], so an [except Exception] clause catches each one. *)
Inductive exn : Type :=
| UnicodeEncodeError
| UnicodeDecodeError
| ValueError
| TypeError
| KeyError
| AttributeError
| JSONDecodeError
| BinasciiError
| UniqueViolationError
| DataError.

Inductive result (A : Type) : Type :=
| Ok (a : A)
| Raise (e : exn).
Arguments Ok {A} a.
Arguments Raise {A} e.

Definition rbind {A B} (r : result A) (k : A -> result B) : result B :=
  match r with
  | Ok a => k a
  | Raise e => Raise e
  end.

Declare Scope result_scope.
Delimit Scope result_scope with result.
Notation "x <- r ;; k" := (rbind r (fun x => k))
  (at level 61, r at next level, right associativity) : result_scope.

(** [byte_of_N n] is the byte of value [n mod 256]. *)
Definition byte_of_N (n : N) : byte :=
  match Byte.of_N (n mod 256) with
  | Some b => b
  | None => x00
  end.

(** An ASCII literal of the source as a [str]. *)
Definition str (s : string) : pystr :=
  map (fun b => Byte.to_N b) (list_byte_of_string s).

Definition pystr_eqb (a b : pystr) : bool :=
  if list_eq_dec N.eq_dec a b then true else false.

(* ================================================================= *)
(** ** [str.encode('utf-8')] and [bytes.decode('utf-8')] *)

Module Utf8.
Local Open Scope N_scope.

(** The strict UTF-8 codec: a surrogate code point cannot be encoded. *)
Definition encode_char (c : N) : result bytes :=
  if c <? 0x80 then Ok [byte_of_N c]
  else if c <? 0x800 then
    Ok [byte_of_N (0xC0 + c / 64); byte_of_N (0x80 + c mod 64)]
  else if c <? 0x10000 then
    if (0xD800 <=? c) && (c <=? 0xDFFF) then Raise UnicodeEncodeError
    else Ok [byte_of_N (0xE0 + c / 4096);
             byte_of_N (0x80 + (c / 64) mod 64);
             byte_of_N (0x80 + c mod 64)]
  else if c <? 0x110000 then
    Ok [byte_of_N (0xF0 + c / 262144);
        byte_of_N (0x80 + (c / 4096) mod 64);
        byte_of_N (0x80 + (c / 64) mod 64);
        byte_of_N (0x80 + c mod 64)]
  else Raise UnicodeEncodeError.

Fixpoint encode (s : pystr) : result bytes :=
  match s with
  | [] => Ok []
  | c :: s' =>
      match encode_char c, encode s' with
      | Ok bs, Ok r => Ok (bs ++ r)
      | Raise e, _ => Raise e
      | _, Raise e => Raise e
      end
  end.

Definition is_cont (b : byte) : bool :=
  (0x80 <=? Byte.to_N b) && (Byte.to_N b <? 0xC0).

Definition cont (b : byte) : N := Byte.to_N b - 0x80.

Definition cons_ok (c : N) (r : result pystr) : result pystr :=
  match r with
  | Ok s => Ok (c :: s)
  | Raise e => Raise e
  end.

(** The strict decoder: it rejects stray continuation bytes, truncated
    sequences, overlong forms, surrogates and values above U+10FFFF. *)
Fixpoint decode (bs : bytes) : result pystr :=
  match bs with
  | [] => Ok []
  | b0 :: t0 =>
      let n0 := Byte.to_N b0 in
      if n0 <? 0x80 then cons_ok n0 (decode t0)
      else if n0 <? 0xC0 then Raise UnicodeDecodeError
      else if n0 <? 0xE0 then
        match t0 with
        | b1 :: t1 =>
            let c := (n0 - 0xC0) * 64 + cont b1 in
            if is_cont b1 && (0x80 <=? c)
            then cons_ok c (decode t1)
            else Raise UnicodeDecodeError
        | _ => Raise UnicodeDecodeError
        end
      else if n0 <? 0xF0 then
        match t0 with
        | b1 :: b2 :: t2 =>
            let c := (n0 - 0xE0) * 4096 + cont b1 * 64 + cont b2 in
            if is_cont b1 && is_cont b2 && (0x800 <=? c)
               && negb ((0xD800 <=? c) && (c <=? 0xDFFF))
            then cons_ok c (decode t2)
            else Raise UnicodeDecodeError
        | _ => Raise UnicodeDecodeError
        end
      else if n0 <? 0xF8 then
        match t0 with
        | b1 :: b2 :: b3 :: t3 =>
            let c := (n0 - 0xF0) * 262144 + cont b1 * 4096
                     + cont b2 * 64 + cont b3 in
            if is_cont b1 && is_cont b2 && is_cont b3
               && (0x10000 <=? c) && (c <? 0x110000)
            then cons_ok c (decode t3)
            else Raise UnicodeDecodeError
        | _ => Raise UnicodeDecodeError
        end
      else Raise UnicodeDecodeError
  end.

(** The code points UTF-8 can carry: the Unicode scalar values. *)
Definition scalar (c : N) : bool :=
  (c <? 0xD800) || ((0xDFFF <? c) && (c <? 0x110000)).

End Utf8.

(** A literal of the source that is not ASCII, written in UTF-8. *)
Definition ustr (s : string) : pystr :=
  match Utf8.decode (list_byte_of_string s) with
  | Ok r => r
  | Raise _ => []
  end.

(* ================================================================= *)
(** ** [Crypto.Util.Padding]: PKCS#7 *)

Module Padding.

Definition pad (data_to_pad : bytes) (block_size : nat) : bytes :=
  let padding_len := (block_size - List.length data_to_pad mod block_size)%nat in
  data_to_pad ++ repeat (byte_of_N (N.of_nat padding_len)) padding_len.

Definition bytes_eqb (a b : bytes) : bool :=
  if list_eq_dec Byte.byte_eq_dec a b then true else false.

Definition unpad (padded_data : bytes) (block_size : nat) : result bytes :=
  let pdata_len := List.length padded_data in
  if (pdata_len =? 0)%nat then Raise ValueError
  else if negb (pdata_len mod block_size =? 0)%nat then Raise ValueError
  else
    let padding_len := N.to_nat (Byte.to_N (last padded_data x00)) in
    if (padding_len <? 1)%nat || (Nat.min block_size pdata_len <? padding_len)%nat
    then Raise ValueError
    else if negb (bytes_eqb (skipn (pdata_len - padding_len) padded_data)
                     (repeat (byte_of_N (N.of_nat padding_len)) padding_len))
    then Raise ValueError
    else Ok (firstn (pdata_len - padding_len) padded_data).

End Padding.

(* ================================================================= *)
(** ** [base64.b64encode] and [base64.b64decode] *)

Module Base64.
Local Open Scope N_scope.

Definition alphabet : bytes :=
  list_byte_of_string
    "ABCDEFGHIJKLMNOPQRSTUVWXYZabcdefghijklmnopqrstuvwxyz0123456789+/".

Definition pad_char : byte := "=".

Definition b2a (sextet : N) : byte := nth (N.to_nat sextet) alphabet pad_char.

(** [binascii.b2a_base64] without the newline: three bytes give four
    characters, a shorter tail is padded with [=]. *)
Fixpoint b64encode (s : bytes) : bytes :=
  match s with
  | [] => []
  | [b0] =>
      let n0 := Byte.to_N b0 in
      [b2a (n0 / 4); b2a ((n0 mod 4) * 16); pad_char; pad_char]
  | [b0; b1] =>
      let n0 := Byte.to_N b0 in
      let n1 := Byte.to_N b1 in
      [b2a (n0 / 4); b2a ((n0 mod 4) * 16 + n1 / 16);
       b2a ((n1 mod 16) * 4); pad_char]
  | b0 :: b1 :: b2 :: rest =>
      let n0 := Byte.to_N b0 in
      let n1 := Byte.to_N b1 in
      let n2 := Byte.to_N b2 in
      b2a (n0 / 4) :: b2a ((n0 mod 4) * 16 + n1 / 16)
        :: b2a ((n1 mod 16) * 4 + n2 / 64) :: b2a (n2 mod 64)
        :: b64encode rest
  end.

(** [table_a2b_base64]: the value of an alphabet character, [None] for
    every other byte. *)
Definition a2b (ch : byte) : option N :=
  let n := Byte.to_N ch in
  if (0x41 <=? n) && (n <=? 0x5A) then Some (n - 0x41)
  else if (0x61 <=? n) && (n <=? 0x7A) then Some (n - 0x61 + 26)
  else if (0x30 <=? n) && (n <=? 0x39) then Some (n - 0x30 + 52)
  else if n =? 0x2B then Some 62
  else if n =? 0x2F then Some 63
  else None.

(** The state of the decoding loop of [binascii.a2b_base64]. *)
Record a2b_state : Type := {
  quad_pos : N;
  leftchar : N;
  pads : N;
  bin_data : bytes          (* the output so far, last byte first *)
}.

(** [binascii.a2b_base64] in its default, non-strict mode: characters
    outside the alphabet are skipped, a complete pad sequence ends the
    input, and an incomplete quad at the end is an error. *)
Fixpoint a2b_loop (st : a2b_state) (ascii_data : bytes) : result bytes :=
  match ascii_data with
  | [] =>
      if quad_pos st =? 0 then Ok (rev (bin_data st)) else Raise BinasciiError
  | this_ch :: rest =>
      if Byte.eqb this_ch pad_char then
        if 2 <=? quad_pos st then
          if 4 <=? quad_pos st + (pads st + 1) then Ok (rev (bin_data st))
          else a2b_loop {| quad_pos := quad_pos st; leftchar := leftchar st;
                           pads := pads st + 1; bin_data := bin_data st |} rest
        else a2b_loop st rest
      else
        match a2b this_ch with
        | None => a2b_loop st rest
        | Some v =>
            let out := bin_data st in
            let l := leftchar st in
            match quad_pos st with
            | 0 => a2b_loop {| quad_pos := 1; leftchar := v;
                               pads := 0; bin_data := out |} rest
            | 1 => a2b_loop {| quad_pos := 2; leftchar := v mod 16; pads := 0;
                               bin_data := byte_of_N (l * 4 + v / 16) :: out |}
                            rest
            | 2 => a2b_loop {| quad_pos := 3; leftchar := v mod 4; pads := 0;
                               bin_data := byte_of_N (l * 16 + v / 4) :: out |}
                            rest
            | _ => a2b_loop {| quad_pos := 0; leftchar := 0; pads := 0;
                               bin_data := byte_of_N (l * 64 + v) :: out |}
                            rest
            end
        end
  end.

Definition a2b_base64 (data : bytes) : result bytes :=
  a2b_loop {| quad_pos := 0; leftchar := 0; pads := 0; bin_data := [] |} data.

(** [s.encode('ascii')] of [_bytes_from_decode_data]. *)
Fixpoint encode_ascii (s : pystr) : result bytes :=
  match s with
  | [] => Ok []
  | c :: s' =>
      if c <? 0x80 then
        match encode_ascii s' with
        | Ok r => Ok (byte_of_N c :: r)
        | Raise e => Raise e
        end
      else Raise ValueError
  end.

Definition b64decode (s : pystr) : result bytes :=
  match encode_ascii s with
  | Ok data => a2b_base64 data
  | Raise e => Raise e
  end.

End Base64.

(* ================================================================= *)
(** ** JSON values, [json.dumps] and [json.loads] *)

Module Json.
Local Open Scope N_scope.

(** A decoded JSON document as Python holds it.  A float keeps the
    decimal [m * 10^e] it was read from; [NaN] and the infinities are the
    constants Python's decoder accepts.  A dict keeps its keys in insertion
    order. *)
Inductive json : Type :=
| JNull
| JBool (b : bool)
| JInt (z : Z)
| JFloat (m e : Z)
| JNaN
| JInf (negative : bool)
| JStr (s : pystr)
| JList (l : list json)
| JDict (d : list (pystr * json)).

(** A decimal that rounds to the double zero: it is at most half of the
    least subnormal, [2^-1075]. *)
Definition rounds_to_zero (m e : Z) : bool :=
  if (0 <=? e)%Z then (m =? 0)%Z
  else (Z.abs m * 2 ^ 1075 <=? 10 ^ (- e))%Z.

(** Python's truth value of a decoded document. *)
Definition truthy (v : json) : bool :=
  match v with
  | JNull => false
  | JBool b => b
  | JInt z => negb (z =? 0)%Z
  | JFloat m e => negb (rounds_to_zero m e)
  | JNaN => true
  | JInf _ => true
  | JStr s => match s with [] => false | _ => true end
  | JList l => match l with [] => false | _ => true end
  | JDict d => match d with [] => false | _ => true end
  end.

(** *** Dictionaries *)

Fixpoint dict_get (d : list (pystr * json)) (k : pystr) : option json :=
  match d with
  | [] => None
  | (k', v) :: d' => if pystr_eqb k' k then Some v else dict_get d' k
  end.

Fixpoint dict_set (d : list (pystr * json)) (k : pystr) (v : json)
  : list (pystr * json) :=
  match d with
  | [] => [(k, v)]
  | (k', v') :: d' =>
      if pystr_eqb k' k then (k', v) :: d' else (k', v') :: dict_set d' k v
  end.

(** [dict(pairs)]: a repeated key keeps its first place and its last value. *)
Definition dict_of_pairs (pairs : list (pystr * json)) : list (pystr * json) :=
  fold_left (fun d kv => dict_set d (fst kv) (snd kv)) pairs [].

(** *** [json.dumps] with [ensure_ascii] *)

Definition hexdigit (n : N) : N := if n <? 10 then 48 + n else 87 + n.

Definition u_escape (c : N) : pystr :=
  [92; 117; hexdigit (c / 4096); hexdigit ((c / 256) mod 16);
   hexdigit ((c / 16) mod 16); hexdigit (c mod 16)].

Definition escape_char (c : N) : pystr :=
  if c =? 34 then [92; 34]
  else if c =? 92 then [92; 92]
  else if c =? 10 then [92; 110]
  else if c =? 13 then [92; 114]
  else if c =? 9 then [92; 116]
  else if c =? 8 then [92; 98]
  else if c =? 12 then [92; 102]
  else if (32 <=? c) && (c <=? 126) then [c]
  else if c <? 0x10000 then u_escape c
  else
    let v := c - 0x10000 in
    u_escape (0xD800 + v / 1024) ++ u_escape (0xDC00 + v mod 1024).

Definition dumps_str (s : pystr) : pystr :=
  [34] ++ flat_map escape_char s ++ [34].

Fixpoint dumps_items (d : list (pystr * pystr)) : pystr :=
  match d with
  | [] => []
  | [(k, v)] => dumps_str k ++ str ": " ++ dumps_str v
  | (k, v) :: d' => dumps_str k ++ str ": " ++ dumps_str v ++ str ", "
                      ++ dumps_items d'
  end.

(** [json.dumps] of a dict whose keys and values are [str]. *)
Definition dumps (d : list (pystr * pystr)) : pystr :=
  str "{" ++ dumps_items d ++ str "}".

(** *** [json.loads] *)

Definition is_ws (c : N) : bool :=
  (c =? 32) || (c =? 9) || (c =? 10) || (c =? 13).

Fixpoint skip_ws (s : pystr) : pystr :=
  match s with
  | c :: t => if is_ws c then skip_ws t else s
  | [] => []
  end.

Definition hexval (c : N) : option N :=
  if (48 <=? c) && (c <=? 57) then Some (c - 48)
  else if (97 <=? c) && (c <=? 102) then Some (c - 87)
  else if (65 <=? c) && (c <=? 70) then Some (c - 55)
  else None.

Definition hex4 (a b c d : N) : option N :=
  match hexval a, hexval b, hexval c, hexval d with
  | Some x, Some y, Some z, Some w => Some (((x * 16 + y) * 16 + z) * 16 + w)
  | _, _, _, _ => None
  end.

Definition unescape (c : N) : option N :=
  if c =? 34 then Some 34
  else if c =? 92 then Some 92
  else if c =? 47 then Some 47
  else if c =? 98 then Some 8
  else if c =? 102 then Some 12
  else if c =? 110 then Some 10
  else if c =? 114 then Some 13
  else if c =? 116 then Some 9
  else None.

Definition is_high (c : N) : bool := (0xD800 <=? c) && (c <=? 0xDBFF).
Definition is_low (c : N) : bool := (0xDC00 <=? c) && (c <=? 0xDFFF).

(** The low surrogate a [\uXXXX] escape at the head of [s] gives. *)
Definition low_escape (a b g1 g2 g3 g4 : N) : option N :=
  if (a =? 92) && (b =? 117) then
    match hex4 g1 g2 g3 g4 with
    | Some u2 => if is_low u2 then Some u2 else None
    | None => None
    end
  else None.

Definition push (c : N) (r : option (pystr * pystr)) : option (pystr * pystr) :=
  match r with
  | Some (s, rest) => Some (c :: s, rest)
  | None => None
  end.

(** [scanstring] in strict mode, from the character after the opening
    quote: the string read and the input after its closing quote. *)
Fixpoint scanstring (s : pystr) : option (pystr * pystr) :=
  match s with
  | [] => None
  | c :: t =>
      if c =? 34 then Some ([], t)
      else if c =? 92 then
        match t with
        | [] => None
        | esc :: t1 =>
            if esc =? 117 then
              match t1 with
              | h1 :: h2 :: h3 :: h4 :: t2 =>
                  match hex4 h1 h2 h3 h4 with
                  | None => None
                  | Some u =>
                      match t2 with
                      | a :: b :: g1 :: g2 :: g3 :: g4 :: t3 =>
                          match (if is_high u then low_escape a b g1 g2 g3 g4
                                 else None) with
                          | Some u2 =>
                              push (0x10000 + (u - 0xD800) * 1024 + (u2 - 0xDC00))
                                   (scanstring t3)
                          | None => push u (scanstring t2)
                          end
                      | _ => push u (scanstring t2)
                      end
                  end
              | _ => None
              end
            else
              match unescape esc with
              | Some ch => push ch (scanstring t1)
              | None => None
              end
        end
      else if c <? 32 then None
      else push c (scanstring t)
  end.

Definition is_digit (c : N) : bool := (48 <=? c) && (c <=? 57).

(** The digits at the head of [s], their value after [acc], their number,
    and the input after them. *)
Fixpoint digits (s : pystr) (acc : Z) (n : Z) : Z * Z * pystr :=
  match s with
  | c :: t =>
      if is_digit c then digits t (acc * 10 + Z.of_N (c - 48))%Z (n + 1)%Z
      else (acc, n, s)
  | [] => (acc, n, [])
  end.

(** The exponent part at the head of [s], when it is complete. *)
Definition exponent (s : pystr) : option (Z * pystr) :=
  match s with
  | c :: t =>
      if (c =? 101) || (c =? 69) then
        let '(negative, t1) :=
          match t with
          | sg :: t' => if sg =? 45 then (true, t')
                        else if sg =? 43 then (false, t') else (false, t)
          | [] => (false, t)
          end in
        let '(v, n, rest) := digits t1 0%Z 0%Z in
        if (n =? 0)%Z then None
        else Some (if negative then (- v)%Z else v, rest)
      else None
  | [] => None
  end.

(** [match_number]: an optional minus sign; a zero, or a non-zero digit
    and further digits; an optional fraction (a point and at least one
    digit); an optional exponent.  A number without fraction and exponent
    is an [int]. *)
Definition match_number (s : pystr) : option (json * pystr) :=
  let '(negative, s1) :=
    match s with
    | c :: t => if c =? 45 then (true, t) else (false, s)
    | [] => (false, s)
    end in
  let sign (z : Z) := if negative then (- z)%Z else z in
  match s1 with
  | [] => None
  | d :: t =>
      if is_digit d then
        let '(i, _, s2) := if d =? 48 then (0%Z, 1%Z, t) else digits s1 0%Z 0%Z in
        let '(m, fl, s3) :=
          match s2 with
          | p :: f :: _ =>
              if (p =? 46) && is_digit f then digits (tl s2) i 0%Z
              else (i, 0%Z, s2)
          | _ => (i, 0%Z, s2)
          end in
        match exponent s3 with
        | Some (e, s4) => Some (JFloat (sign m) (e - fl)%Z, s4)
        | None =>
            if (fl =? 0)%Z then Some (JInt (sign m), s3)
            else Some (JFloat (sign m) (- fl)%Z, s3)
        end
      else None
  end.

Fixpoint starts_with (p s : pystr) : option pystr :=
  match p, s with
  | [], _ => Some s
  | a :: p', b :: s' => if a =? b then starts_with p' s' else None
  | _ :: _, [] => None
  end.

(** The scanner.  [fuel] bounds the number of nested calls; [loads] gives
    it more than a document of its length can use. *)
Fixpoint scan_once (fuel : nat) (s : pystr) : option (json * pystr) :=
  match fuel with
  | O => None
  | S fuel' =>
      let parse_array :=
        fix elements (n : nat) (acc : list json) (s : pystr)
          : option (json * pystr) :=
          match n with
          | O => None
          | S n' =>
              match scan_once fuel' s with
              | None => None
              | Some (v, rest) =>
                  match skip_ws rest with
                  | c :: t =>
                      if c =? 44 then elements n' (v :: acc) (skip_ws t)
                      else if c =? 93 then Some (JList (rev (v :: acc)), t)
                      else None
                  | [] => None
                  end
              end
          end in
      let parse_object :=
        fix members (n : nat) (acc : list (pystr * json)) (s : pystr)
          : option (json * pystr) :=
          match n with
          | O => None
          | S n' =>
              match s with
              | q :: t =>
                  if q =? 34 then
                    match scanstring t with
                    | None => None
                    | Some (key, rest) =>
                        match skip_ws rest with
                        | c :: t1 =>
                            if c =? 58 then
                              match scan_once fuel' (skip_ws t1) with
                              | None => None
                              | Some (v, rest1) =>
                                  match skip_ws rest1 with
                                  | c1 :: t2 =>
                                      if c1 =? 44
                                      then members n' ((key, v) :: acc) (skip_ws t2)
                                      else if c1 =? 125
                                      then Some (JDict (dict_of_pairs
                                                          (rev ((key, v) :: acc))), t2)
                                      else None
                                  | [] => None
                                  end
                              end
                            else None
                        | [] => None
                        end
                    end
                  else None
              | [] => None
              end
          end in
      match s with
      | [] => None
      | c :: t =>
          if c =? 34 then
            match scanstring t with
            | Some (r, rest) => Some (JStr r, rest)
            | None => None
            end
          else if c =? 123 then
            match skip_ws t with
            | c1 :: t1 =>
                if c1 =? 125 then Some (JDict [], t1)
                else parse_object (List.length s) [] (c1 :: t1)
            | [] => None
            end
          else if c =? 91 then
            match skip_ws t with
            | c1 :: t1 =>
                if c1 =? 93 then Some (JList [], t1)
                else parse_array (List.length s) [] (c1 :: t1)
            | [] => None
            end
          else
            match starts_with (str "null") s with
            | Some rest => Some (JNull, rest)
            | None =>
            match starts_with (str "true") s with
            | Some rest => Some (JBool true, rest)
            | None =>
            match starts_with (str "false") s with
            | Some rest => Some (JBool false, rest)
            | None =>
            match starts_with (str "NaN") s with
            | Some rest => Some (JNaN, rest)
            | None =>
            match starts_with (str "Infinity") s with
            | Some rest => Some (JInf false, rest)
            | None =>
            match starts_with (str "-Infinity") s with
            | Some rest => Some (JInf true, rest)
            | None => match_number s
            end end end end end end
      end
  end.

(** [json.loads] of a [str]: one document, white space around it allowed. *)
Definition loads (s : pystr) : result json :=
  match s with
  | 0xFEFF :: _ => Raise JSONDecodeError
  | _ =>
      match scan_once (S (List.length s)) (skip_ws s) with
      | Some (v, rest) =>
          match skip_ws rest with
          | [] => Ok v
          | _ :: _ => Raise JSONDecodeError
          end
      | None => Raise JSONDecodeError
      end
  end.

End Json.

(* ================================================================= *)
(** ** [Crypto.Cipher.AES]: the block cipher (FIPS 197) and CBC mode *)

Module AES.

Definition block_size : nat := 16.

Definition all_bytes : bytes := map (fun n => byte_of_N (N.of_nat n)) (seq 0 256).

Definition bxor (a b : byte) : byte :=
  byte_of_N (N.lxor (Byte.to_N a) (Byte.to_N b)).

(** Multiplication by [x] in GF(2^8) modulo [x^8 + x^4 + x^3 + x + 1]. *)
Definition xtime (a : byte) : byte :=
  let n := Byte.to_N a in
  byte_of_N (N.lxor (n * 2) (if (128 <=? n)%N then 0x1B%N else 0%N)).

Fixpoint gmul_loop (k : nat) (a : byte) (b : N) (acc : byte) : byte :=
  match k with
  | O => acc
  | S k' => gmul_loop k' (xtime a) (b / 2)%N (if N.odd b then bxor acc a else acc)
  end.

(** The product of [a] and the constant [b] in GF(2^8). *)
Definition gmul (b : N) (a : byte) : byte := gmul_loop 8 a b x00.

Fixpoint gpow (a : byte) (n : nat) : byte :=
  match n with
  | O => x01
  | S n' => gmul (Byte.to_N a) (gpow a n')
  end.

Definition rotl8 (n : N) (k : N) : N :=
  ((N.shiftl n k) mod 256 + N.shiftr n (8 - k))%N.

(** The S-box from its definition: the inverse in GF(2^8), then the affine
    transformation. *)
Definition sbox_of (a : byte) : byte :=
  let x := Byte.to_N (gpow a 254) in
  byte_of_N (N.lxor x (N.lxor (rotl8 x 1) (N.lxor (rotl8 x 2)
              (N.lxor (rotl8 x 3) (N.lxor (rotl8 x 4) 0x63%N))))).

Definition sbox_table : bytes := Eval vm_compute in map sbox_of all_bytes.

Definition sbox (a : byte) : byte :=
  nth (N.to_nat (Byte.to_N a)) sbox_table x00.

Definition inv_sbox_table : bytes :=
  Eval vm_compute in
    map (fun y => match find (fun x => Byte.eqb (sbox x) y) all_bytes with
                  | Some x => x
                  | None => x00
                  end) all_bytes.

Definition inv_sbox (a : byte) : byte :=
  nth (N.to_nat (Byte.to_N a)) inv_sbox_table x00.

(** The state is the block itself: byte [r + 4c] is row [r] of column [c]. *)
Definition sub_bytes (s : bytes) : bytes := map sbox s.
Definition inv_sub_bytes (s : bytes) : bytes := map inv_sbox s.

Definition shift_rows (s : bytes) : bytes :=
  match s with
  | [s0; s1; s2; s3; s4; s5; s6; s7; s8; s9; s10; s11; s12; s13; s14; s15] =>
      [s0; s5; s10; s15; s4; s9; s14; s3; s8; s13; s2; s7; s12; s1; s6; s11]
  | _ => s
  end.

Definition inv_shift_rows (s : bytes) : bytes :=
  match s with
  | [s0; s1; s2; s3; s4; s5; s6; s7; s8; s9; s10; s11; s12; s13; s14; s15] =>
      [s0; s13; s10; s7; s4; s1; s14; s11; s8; s5; s2; s15; s12; s9; s6; s3]
  | _ => s
  end.

Definition mix_column (a0 a1 a2 a3 : byte) : bytes :=
  [bxor (bxor (gmul 2 a0) (gmul 3 a1)) (bxor a2 a3);
   bxor (bxor a0 (gmul 2 a1)) (bxor (gmul 3 a2) a3);
   bxor (bxor a0 a1) (bxor (gmul 2 a2) (gmul 3 a3));
   bxor (bxor (gmul 3 a0) a1) (bxor a2 (gmul 2 a3))].

Definition inv_mix_column (a0 a1 a2 a3 : byte) : bytes :=
  [bxor (bxor (gmul 14 a0) (gmul 11 a1)) (bxor (gmul 13 a2) (gmul 9 a3));
   bxor (bxor (gmul 9 a0) (gmul 14 a1)) (bxor (gmul 11 a2) (gmul 13 a3));
   bxor (bxor (gmul 13 a0) (gmul 9 a1)) (bxor (gmul 14 a2) (gmul 11 a3));
   bxor (bxor (gmul 11 a0) (gmul 13 a1)) (bxor (gmul 9 a2) (gmul 14 a3))].

Fixpoint mix_columns (s : bytes) : bytes :=
  match s with
  | a0 :: a1 :: a2 :: a3 :: rest => mix_column a0 a1 a2 a3 ++ mix_columns rest
  | _ => s
  end.

Fixpoint inv_mix_columns (s : bytes) : bytes :=
  match s with
  | a0 :: a1 :: a2 :: a3 :: rest =>
      inv_mix_column a0 a1 a2 a3 ++ inv_mix_columns rest
  | _ => s
  end.

(** [xor_bytes a b]: [a] with the bytes of [b] added; [b] is at least as
    long as [a] wherever the cipher uses it. *)
Fixpoint xor_bytes (a b : bytes) : bytes :=
  match a, b with
  | x :: a', y :: b' => bxor x y :: xor_bytes a' b'
  | _, _ => a
  end.

Definition add_round_key (s k : bytes) : bytes := xor_bytes s k.

(** *** Key expansion *)

Definition sub_word (w : bytes) : bytes := map sbox w.

Definition rot_word (w : bytes) : bytes :=
  match w with
  | a :: rest => rest ++ [a]
  | [] => []
  end.

Fixpoint rcon (i : nat) : byte :=
  match i with
  | O => x00
  | S O => x01
  | S i' => xtime (rcon i')
  end.

Fixpoint words (k : bytes) : list bytes :=
  match k with
  | a :: b :: c :: d :: rest => [a; b; c; d] :: words rest
  | _ => []
  end.

(** [expand nk n i w]: [n] more words after the [i] words held in [w], the
    latest first. *)
Fixpoint expand (nk : nat) (n : nat) (i : nat) (w : list bytes) : list bytes :=
  match n with
  | O => w
  | S n' =>
      let temp := hd [] w in
      let temp :=
        if (i mod nk =? 0)%nat then
          xor_bytes (sub_word (rot_word temp)) [rcon (i / nk); x00; x00; x00]
        else if (6 <? nk)%nat && (i mod nk =? 4)%nat then sub_word temp
        else temp in
      expand nk n' (S i) (xor_bytes (nth (nk - 1) w []) temp :: w)
  end.

Fixpoint round_keys_of (w : list bytes) : list bytes :=
  match w with
  | a :: b :: c :: d :: rest => (a ++ b ++ c ++ d) :: round_keys_of rest
  | _ => []
  end.

(** The [Nr + 1] round keys of a key of [4 * nk] bytes, [Nr = nk + 6]. *)
Definition key_expansion (key : bytes) : list bytes :=
  let nk := (List.length key / 4)%nat in
  let total := (4 * (nk + 7))%nat in
  round_keys_of (rev (expand nk (total - nk) nk (rev (words key)))).

(** *** The cipher and its inverse *)

Definition round (s k : bytes) : bytes :=
  add_round_key (mix_columns (shift_rows (sub_bytes s))) k.

Definition final_round (s k : bytes) : bytes :=
  add_round_key (shift_rows (sub_bytes s)) k.

Fixpoint rounds (s : bytes) (ks : list bytes) : bytes :=
  match ks with
  | [] => s
  | [k] => final_round s k
  | k :: ks' => rounds (round s k) ks'
  end.

Definition encrypt_block (rks : list bytes) (block : bytes) : bytes :=
  match rks with
  | [] => block
  | k0 :: ks => rounds (add_round_key block k0) ks
  end.

Definition inv_round (s k : bytes) : bytes :=
  inv_sub_bytes (inv_shift_rows (inv_mix_columns (add_round_key s k))).

Definition inv_final_round (s k : bytes) : bytes :=
  inv_sub_bytes (inv_shift_rows (add_round_key s k)).

Fixpoint inv_rounds (s : bytes) (ks : list bytes) : bytes :=
  match ks with
  | [] => s
  | [k] => inv_final_round s k
  | k :: ks' => inv_round (inv_rounds s ks') k
  end.

Definition decrypt_block (rks : list bytes) (block : bytes) : bytes :=
  match rks with
  | [] => block
  | k0 :: ks => add_round_key (inv_rounds block ks) k0
  end.

(** *** [AES.new(key, AES.MODE_CBC, iv)] *)

(** The key sizes [AES.new] accepts. *)
Definition valid_key (key : bytes) : bool :=
  let n := List.length key in
  (n =? 16)%nat || (n =? 24)%nat || (n =? 32)%nat.

Record cbc_cipher : Type := {
  round_keys : list bytes;
  iv : bytes
}.

(** [AES.new] with an explicit IV. *)
Definition new_cbc (key : bytes) (iv : bytes) : result cbc_cipher :=
  if negb (valid_key key) then Raise ValueError
  else if negb (List.length iv =? block_size)%nat then Raise ValueError
  else Ok {| round_keys := key_expansion key; iv := iv |}.

Fixpoint chunks (fuel : nat) (data : bytes) : list bytes :=
  match fuel with
  | O => []
  | S fuel' =>
      match data with
      | [] => []
      | _ => firstn block_size data :: chunks fuel' (skipn block_size data)
      end
  end.

Fixpoint cbc_encrypt_blocks (rks : list bytes) (prev : bytes) (bs : list bytes)
  : bytes :=
  match bs with
  | [] => []
  | p :: bs' =>
      let c := encrypt_block rks (xor_bytes p prev) in
      c ++ cbc_encrypt_blocks rks c bs'
  end.

Fixpoint cbc_decrypt_blocks (rks : list bytes) (prev : bytes) (bs : list bytes)
  : bytes :=
  match bs with
  | [] => []
  | c :: bs' =>
      xor_bytes (decrypt_block rks c) prev ++ cbc_decrypt_blocks rks c bs'
  end.

(** [cipher.encrypt]: the data must be a whole number of blocks. *)
Definition encrypt (c : cbc_cipher) (plaintext : bytes) : result bytes :=
  if negb (List.length plaintext mod block_size =? 0)%nat then Raise ValueError
  else Ok (cbc_encrypt_blocks (round_keys c) (iv c)
             (chunks (List.length plaintext) plaintext)).

(** [cipher.decrypt]. *)
Definition decrypt (c : cbc_cipher) (ciphertext : bytes) : result bytes :=
  if negb (List.length ciphertext mod block_size =? 0)%nat then Raise ValueError
  else Ok (cbc_decrypt_blocks (round_keys c) (iv c)
             (chunks (List.length ciphertext) ciphertext)).

End AES.

(* ================================================================= *)
(** ** The world of the service *)

Import Json.

(** A row of the [dialogs] table ([init_db]). *)
Record row : Type := {
  message_id : pystr;                 (* TEXT PRIMARY KEY *)
  user_id : Z;                        (* BIGINT *)
  chat_id : Z;                        (* BIGINT *)
  message_text : option pystr;        (* TEXT *)
  is_bot_message : bool;              (* BOOLEAN DEFAULT FALSE *)
  sent_at : Z;                        (* TIMESTAMPTZ DEFAULT NOW() *)
  delivered_at : option Z;            (* TIMESTAMPTZ *)
  read_at : option Z;                 (* TIMESTAMPTZ *)
  full_answer : option pystr          (* TEXT *)
}.

(** What a POST to a collaborator comes to: the request or the reading of
    its reply raises [e] (with [str(e)] the text held), or a reply arrives
    with its status, the value [response.json()] gives and the text
    [response.text()] gives. *)
Inductive http_outcome : Type :=
| HttpError (e : pystr)
| HttpReply (status : Z) (body : json) (text : pystr).

(** The records the service logs, all at level ERROR. *)
Inductive log_record : Type :=
| ServiceError (status : Z) (error_text : pystr)
| CallFailed (url : pystr) (e : pystr)
| MLServiceError (error : json)
| DecryptMessageError (e : exn)
| DecryptFullAnswerError (e : exn).

(** The statements the service sends to the database. *)
Inductive statement : Type :=
| SelectContext (user_id chat_id : Z)
| InsertTurn (message_id : pystr)
| SelectFullAnswer (message_id : pystr) (user_id : Z)
| UpdateReadAt (message_id : pystr)
| SelectHistory (user_id : Z) (limit : Z).

(** What a request does that can be observed from outside its handler. *)
Inductive event : Type :=
| EvPost (url : pystr) (data : json)
| EvLog (r : log_record)
| EvConnect
| EvClose
| EvSql (s : statement)
| EvDecrypt (encrypted_data : pystr).

Record world : Type := {
  dialogs : list row;
  net : pystr -> json -> http_outcome;   (* the collaborators *)
  entropy : nat -> byte;                 (* the bytes [os.urandom] gives *)
  pos : nat;                             (* how many of them were drawn *)
  now : Z;                               (* NOW() *)
  trace : list event                     (* the events so far, in order *)
}.

(** The constants the module reads from its environment at import. *)
Record config : Type := {
  ML_SERVICE_URL : pystr;
  AUTH_SERVICE_URL : pystr;
  ENCRYPTION_KEY : bytes
}.

Definition MAX_TRUNCATED_LENGTH : nat := 100.

(* ================================================================= *)
(** ** The monad of a request *)

Definition M (A : Type) : Type := world -> result A * world.

Definition ret {A} (a : A) : M A := fun w => (Ok a, w).

Definition raise {A} (e : exn) : M A := fun w => (Raise e, w).

Definition bind {A B} (m : M A) (k : A -> M B) : M B :=
  fun w =>
    match m w with
    | (Ok a, w') => k a w'
    | (Raise e, w') => (Raise e, w')
    end.

Declare Scope monad_scope.
Delimit Scope monad_scope with monad.
Notation "x <- m ;; k" := (bind m (fun x => k))
  (at level 61, m at next level, right associativity) : monad_scope.
Notation "m ;; k" := (bind m (fun _ => k))
  (at level 61, right associativity) : monad_scope.

(** A pure call that may raise. *)
Definition lift {A} (r : result A) : M A := fun w => (r, w).

Definition get_world : M world := fun w => (Ok w, w).

Definition tell (ev : event) : M unit :=
  fun w => (Ok tt, {| dialogs := dialogs w; net := net w; entropy := entropy w;
                      pos := pos w; now := now w; trace := trace w ++ [ev] |}).

Definition set_dialogs (d : list row) : M unit :=
  fun w => (Ok tt, {| dialogs := d; net := net w; entropy := entropy w;
                      pos := pos w; now := now w; trace := trace w |}).

(** [try: body finally: final]. *)
Definition try_finally {A} (body : M A) (final : M unit) : M A :=
  fun w =>
    match body w with
    | (r, w') =>
        match final w' with
        | (Ok _, w'') => (r, w'')
        | (Raise e, w'') => (Raise e, w'')
        end
    end.

(** [try: body except Exception as e: handler e]. *)
Definition try_except {A} (body : M A) (handler : exn -> M A) : M A :=
  fun w =>
    match body w with
    | (Ok a, w') => (Ok a, w')
    | (Raise e, w') => handler e w'
    end.

(** [os.urandom(n)], behind [get_random_bytes] and [uuid.uuid4]. *)
Definition get_random_bytes (n : nat) : M bytes :=
  fun w => (Ok (map (entropy w) (seq (pos w) n)),
            {| dialogs := dialogs w; net := net w; entropy := entropy w;
               pos := pos w + n; now := now w; trace := trace w |}).

(** *** [str(uuid.uuid4())] *)

Definition hex_of_byte (b : byte) : pystr :=
  [hexdigit (Byte.to_N b / 16); hexdigit (Byte.to_N b mod 16)]%N.

Definition uuid_str (b : bytes) : pystr :=
  flat_map hex_of_byte (firstn 4 b) ++ str "-"
    ++ flat_map hex_of_byte (firstn 2 (skipn 4 b)) ++ str "-"
    ++ flat_map hex_of_byte (firstn 2 (skipn 6 b)) ++ str "-"
    ++ flat_map hex_of_byte (firstn 2 (skipn 8 b)) ++ str "-"
    ++ flat_map hex_of_byte (skipn 10 b).

(** The version and variant bits of a random UUID. *)
Definition set_version4 (b : bytes) : bytes :=
  match b with
  | [b0; b1; b2; b3; b4; b5; b6; b7; b8; b9; b10; b11; b12; b13; b14; b15] =>
      [b0; b1; b2; b3; b4; b5;
       byte_of_N (0x40 + Byte.to_N b6 mod 16); b7;
       byte_of_N (0x80 + Byte.to_N b8 mod 64); b9;
       b10; b11; b12; b13; b14; b15]
  | _ => b
  end.

Definition uuid4 : M pystr :=
  (b <- get_random_bytes 16 ;;
   ret (uuid_str (set_version4 b)))%monad.

(* ================================================================= *)
(** ** The request models *)

Module Message.
Record t : Type := { user_id : Z; message_text : pystr; chat_id : Z }.
End Message.

Module LogMessage.
Record t : Type := {
  user_id : Z;
  chat_id : Z;
  message_text : pystr;
  is_bot_message : bool
}.
End LogMessage.

Module FullAnswerRequest.
Record t : Type := { user_id : Z; message_id : pystr }.
End FullAnswerRequest.

(* ================================================================= *)
(** ** Crypto at rest: [encrypt_data] and [decrypt_data] *)

Section Service.

Variable cfg : config.

(** [AES.new(ENCRYPTION_KEY, AES.MODE_CBC)]: the key is checked, then a
    random IV is drawn. *)
Definition new_cipher : M AES.cbc_cipher :=
  if negb (AES.valid_key (ENCRYPTION_KEY cfg)) then raise ValueError
  else (iv <- get_random_bytes AES.block_size ;;
        lift (AES.new_cbc (ENCRYPTION_KEY cfg) iv))%monad.

(** [data.encode('utf-8')]: only a [str] has the method. *)
Definition encode_utf8 (data : json) : result bytes :=
  match data with
  | JStr s => Utf8.encode s
  | _ => Raise AttributeError
  end.

Definition encrypt_data (data : json) : M pystr :=
  (cipher <- new_cipher ;;
   lift (plain <- encode_utf8 data ;;
         ct_bytes <- AES.encrypt cipher (Padding.pad plain AES.block_size) ;;
         iv <- Utf8.decode (Base64.b64encode (AES.iv cipher)) ;;
         ct <- Utf8.decode (Base64.b64encode ct_bytes) ;;
         Ok (dumps [(str "iv", iv); (str "ciphertext", ct)]))%result)%monad.

(** [b64[key]] on what [json.loads] gave. *)
Definition subscript (v : json) (key : pystr) : result json :=
  match v with
  | JDict d =>
      match dict_get d key with
      | Some x => Ok x
      | None => Raise KeyError
      end
  | _ => Raise TypeError
  end.

(** [base64.b64decode] of a decoded JSON value: a [str] is decoded, every
    other JSON value is refused. *)
Definition b64decode_value (v : json) : result bytes :=
  match v with
  | JStr s => Base64.b64decode s
  | _ => Raise TypeError
  end.

Definition decrypt_data (encrypted_data : pystr) : result pystr :=
  (b64 <- loads encrypted_data ;;
   iv_value <- subscript b64 (str "iv") ;;
   iv <- b64decode_value iv_value ;;
   ct_value <- subscript b64 (str "ciphertext") ;;
   ct <- b64decode_value ct_value ;;
   cipher <- AES.new_cbc (ENCRYPTION_KEY cfg) iv ;;
   padded <- AES.decrypt cipher ct ;;
   pt <- Padding.unpad padded AES.block_size ;;
   Utf8.decode pt)%result.

(** A call of [decrypt_data] by a handler, recorded in the trace. *)
Definition decrypting (encrypted_data : pystr) : M pystr :=
  (tell (EvDecrypt encrypted_data) ;;
   lift (decrypt_data encrypted_data))%monad.

(* ================================================================= *)
(** ** The [dialogs] table *)

(** [ORDER BY sent_at DESC]: rows of equal [sent_at] keep the order of the
    table (SQL leaves their order open). *)
Fixpoint insert_desc (r : row) (l : list row) : list row :=
  match l with
  | [] => [r]
  | x :: l' =>
      if (sent_at x <=? sent_at r)%Z then r :: l else x :: insert_desc r l'
  end.

Definition order_by_sent_at_desc (l : list row) : list row :=
  fold_right insert_desc [] l.

Definition get_connection : M unit := tell EvConnect.

Definition close : M unit := tell EvClose.

(** [SELECT message_text, is_bot_message FROM dialogs WHERE user_id = $1
    AND chat_id = $2 ORDER BY sent_at DESC LIMIT 10], on a table. *)
Definition select_context (table : list row) (p1 p2 : Z) : list row :=
  firstn 10 (order_by_sent_at_desc
               (filter (fun r => (user_id r =? p1)%Z && (chat_id r =? p2)%Z)
                       table)).

Definition fetch_context (p1 p2 : Z) : M (list row) :=
  (tell (EvSql (SelectContext p1 p2)) ;;
   w <- get_world ;;
   ret (select_context (dialogs w) p1 p2))%monad.

(** [INSERT INTO dialogs ...]: the primary key refuses a [message_id] the
    table already holds. *)
Definition insert_row (r : row) : M unit :=
  (tell (EvSql (InsertTurn (message_id r))) ;;
   w <- get_world ;;
   if existsb (fun x => pystr_eqb (message_id x) (message_id r)) (dialogs w)
   then raise UniqueViolationError
   else set_dialogs (dialogs w ++ [r]))%monad.

(** [fetchval] of [SELECT full_answer FROM dialogs WHERE message_id = $1
    AND user_id = $2], on a table: the column of the first row found,
    [None] without a row. *)
Definition select_full_answer (table : list row) (p1 : pystr) (p2 : Z)
  : option pystr :=
  match filter (fun r => pystr_eqb (message_id r) p1 && (user_id r =? p2)%Z)
               table with
  | r :: _ => full_answer r
  | [] => None
  end.

Definition fetch_full_answer (p1 : pystr) (p2 : Z) : M (option pystr) :=
  (tell (EvSql (SelectFullAnswer p1 p2)) ;;
   w <- get_world ;;
   ret (select_full_answer (dialogs w) p1 p2))%monad.

Definition stamp_read (p1 : pystr) (t : Z) (r : row) : row :=
  if pystr_eqb (message_id r) p1 then
    {| message_id := message_id r; user_id := user_id r; chat_id := chat_id r;
       message_text := message_text r; is_bot_message := is_bot_message r;
       sent_at := sent_at r; delivered_at := delivered_at r;
       read_at := Some t; full_answer := full_answer r |}
  else r.

(** [UPDATE dialogs SET read_at = NOW() WHERE message_id = $1]. *)
Definition update_read_at (p1 : pystr) : M unit :=
  (tell (EvSql (UpdateReadAt p1)) ;;
   w <- get_world ;;
   set_dialogs (map (stamp_read p1 (now w)) (dialogs w)))%monad.

(** [SELECT ... FROM dialogs WHERE user_id = $1 ORDER BY sent_at DESC
    LIMIT $2], on a table. *)
Definition select_history (table : list row) (p1 : Z) (p2 : Z) : list row :=
  firstn (Z.to_nat p2)
         (order_by_sent_at_desc (filter (fun r => (user_id r =? p1)%Z) table)).

(** A negative limit is refused. *)
Definition fetch_history (p1 : Z) (p2 : Z) : M (list row) :=
  (tell (EvSql (SelectHistory p1 p2)) ;;
   w <- get_world ;;
   if (p2 <? 0)%Z then raise DataError
   else ret (select_history (dialogs w) p1 p2))%monad.

(* ================================================================= *)
(** ** Calls to the other services *)

Definition call_service (url : pystr) (data : json) : M json :=
  (tell (EvPost url data) ;;
   w <- get_world ;;
   match net w url data with
   | HttpReply status body error_text =>
       if (status =? 200)%Z then ret body
       else (tell (EvLog (ServiceError status error_text)) ;;
             ret (JDict [(str "error", JStr error_text)]))
   | HttpError e =>
       tell (EvLog (CallFailed url e)) ;;
       ret (JDict [(str "error", JStr e)])
   end)%monad.

Fixpoint is_substring (p s : pystr) : bool :=
  match starts_with p s with
  | Some _ => true
  | None =>
      match s with
      | [] => false
      | _ :: s' => is_substring p s'
      end
  end.

(** [key in v] for a [str] key. *)
Definition contains (key : pystr) (v : json) : result bool :=
  match v with
  | JDict d => Ok (match dict_get d key with Some _ => true | None => false end)
  | JList l =>
      Ok (existsb (fun x => match x with
                            | JStr s => pystr_eqb s key
                            | _ => false
                            end) l)
  | JStr s => Ok (is_substring key s)
  | _ => Raise TypeError
  end.

(** [v.get(key, default)]: only a dict has the method. *)
Definition get_default (v : json) (key : pystr) (default : json) : result json :=
  match v with
  | JDict d =>
      Ok (match dict_get d key with
          | Some x => x
          | None => default
          end)
  | _ => Raise AttributeError
  end.

Definition apology : pystr :=
  Eval vm_compute in
    ustr "К сожалению, произошла ошибка при обработке вашего запроса.".

Definition get_ml_response (user_id : Z) (message_text : pystr)
           (context : list json) : M json :=
  (result <- call_service (ML_SERVICE_URL cfg ++ str "/generate")
                          (JDict [(str "user_id", JInt user_id);
                                  (str "message", JStr message_text);
                                  (str "context", JList context)]) ;;
   has_error <- lift (contains (str "error") result) ;;
   if has_error : bool then
     (error <- lift (subscript result (str "error")) ;;
      tell (EvLog (MLServiceError error)) ;;
      ret (JStr apology))
   else lift (get_default result (str "response") (JStr [])))%monad.

Definition check_authorization (user_id : Z) : M json :=
  (result <- call_service (AUTH_SERVICE_URL cfg ++ str "/check")
                          (JDict [(str "user_id", JInt user_id)]) ;;
   lift (get_default result (str "authorized") (JBool false)))%monad.

(* ================================================================= *)
(** ** The routes *)

Definition role_of (r : row) : json :=
  JStr (if is_bot_message r then str "assistant" else str "user").

Definition text_value (t : option pystr) : json :=
  match t with
  | Some s => JStr s
  | None => JNull
  end.

Definition context_entry (r : row) : json :=
  JDict [(str "role", role_of r); (str "content", text_value (message_text r))].

(** The context [process_message] builds from the rows it fetched and the
    text of the new message. *)
Definition build_context (context_rows : list row) (message_text : pystr)
  : list json :=
  map context_entry (rev context_rows)
    ++ [JDict [(str "role", JStr (str "user"));
               (str "content", JStr message_text)]].

(** [POST /process]. *)
Definition process_message (message : Message.t) : M json :=
  (get_connection ;;
   try_finally
     (message_id <- uuid4 ;;
      context_rows <- fetch_context (Message.user_id message)
                                    (Message.chat_id message) ;;
      let context := build_context context_rows (Message.message_text message) in
      full_answer <- get_ml_response (Message.user_id message)
                                     (Message.message_text message) context ;;
      authorized <- check_authorization (Message.user_id message) ;;
      encrypted_answer <- encrypt_data full_answer ;;
      w <- get_world ;;
      insert_row {| message_id := message_id;
                    user_id := Message.user_id message;
                    chat_id := Message.chat_id message;
                    message_text := Some (Message.message_text message);
                    is_bot_message := false;
                    sent_at := now w;
                    delivered_at := None;
                    read_at := None;
                    full_answer := Some encrypted_answer |} ;;
      if truthy authorized then
        ret (JDict [(str "full_answer", full_answer);
                    (str "truncated_answer", JNull);
                    (str "message_id", JStr message_id)])
      else
        match full_answer with
        | JStr answer =>
            let truncated_answer := firstn MAX_TRUNCATED_LENGTH answer in
            let truncated_answer :=
              if (MAX_TRUNCATED_LENGTH <? List.length answer)%nat
              then truncated_answer ++ str "..."
              else truncated_answer in
            ret (JDict [(str "full_answer", JNull);
                        (str "truncated_answer", JStr truncated_answer);
                        (str "message_id", JStr message_id)])
        | _ => raise TypeError      (* only a [str] was encrypted above *)
        end)
     close)%monad.

(** [POST /log_message]. *)
Definition log_message (message : LogMessage.t) : M json :=
  (get_connection ;;
   try_finally
     (message_id <- uuid4 ;;
      encrypted_text <-
        match LogMessage.message_text message with
        | [] => ret None
        | _ :: _ =>
            e <- encrypt_data (JStr (LogMessage.message_text message)) ;;
            ret (Some e)
        end ;;
      w <- get_world ;;
      insert_row {| message_id := message_id;
                    user_id := LogMessage.user_id message;
                    chat_id := LogMessage.chat_id message;
                    message_text := encrypted_text;
                    is_bot_message := LogMessage.is_bot_message message;
                    sent_at := now w;
                    delivered_at := None;
                    read_at := None;
                    full_answer := None |} ;;
      ret (JDict [(str "status", JStr (str "logged"));
                  (str "message_id", JStr message_id)]))
     close)%monad.

Definition not_authorized : json :=
  JDict [(str "error", JStr (str "Not authorized"))].

Definition answer_not_found : json :=
  JDict [(str "error", JStr (str "Answer not found"))].

(** [POST /full_answer]. *)
Definition get_full_answer (request : FullAnswerRequest.t) : M json :=
  (authorized <- check_authorization (FullAnswerRequest.user_id request) ;;
   if negb (truthy authorized) then ret not_authorized
   else
     (get_connection ;;
      try_finally
        (encrypted_answer <-
           fetch_full_answer (FullAnswerRequest.message_id request)
                             (FullAnswerRequest.user_id request) ;;
         match encrypted_answer with
         | None | Some [] => ret answer_not_found
         | Some encrypted =>
             full_answer <- decrypting encrypted ;;
             update_read_at (FullAnswerRequest.message_id request) ;;
             ret (JDict [(str "full_answer", JStr full_answer)])
         end)
        close))%monad.

Definition decryption_error : pystr :=
  Eval vm_compute in ustr "[Ошибка расшифровки]".

(** The loop body of [get_dialog_history]: one entry of the history.  A
    timestamp is a number in the model; the [sent_at] of an entry stands
    for the text [isoformat()] gives for it. *)
Definition history_item (authorized : json) (r : row) : M json :=
  (let message_item :=
     [(str "message_id", JStr (message_id r));
      (str "is_bot_message", JBool (is_bot_message r));
      (str "sent_at", JInt (sent_at r))] in
   message_item <-
     match message_text r with
     | None | Some [] => ret message_item
     | Some text =>
         v <- try_except (decrypting text)
                (fun e => tell (EvLog (DecryptMessageError e)) ;;
                          ret decryption_error) ;;
         ret (dict_set message_item (str "message_text") (JStr v))
     end ;;
   message_item <-
     match full_answer r with
     | None | Some [] => ret message_item
     | Some answer =>
         if truthy authorized && is_bot_message r then
           v <- try_except (decrypting answer)
                  (fun e => tell (EvLog (DecryptFullAnswerError e)) ;;
                            ret decryption_error) ;;
           ret (dict_set message_item (str "full_answer") (JStr v))
         else ret message_item
     end ;;
   ret (JDict message_item))%monad.

Fixpoint history_items (authorized : json) (rows : list row) : M (list json) :=
  match rows with
  | [] => ret []
  | r :: rows' =>
      (item <- history_item authorized r ;;
       items <- history_items authorized rows' ;;
       ret (item :: items))%monad
  end.

(** [GET /history/{user_id}]. *)
Definition get_dialog_history (user_id : Z) (limit : Z) : M json :=
  (get_connection ;;
   try_finally
     (authorized <- check_authorization user_id ;;
      rows <- fetch_history user_id limit ;;
      history <- history_items authorized rows ;;
      ret (JDict [(str "history", JList history)]))
     close)%monad.

End Service.

(* ################################################################# *)
(** * Part II: lemmas and theorems *)

(** Linear arithmetic over [N] with division and remainder by constants. *)
Ltac nlia := zify; Z.to_euclidean_division_equations; lia.

(* ================================================================= *)
(** ** Bytes *)

Lemma to_N_lt (b : byte) : (Byte.to_N b < 256)%N.
Proof. pose proof (Byte.to_N_bounded b). lia. Qed.

Lemma to_N_byte_of_N (n : N) : (n < 256)%N -> Byte.to_N (byte_of_N n) = n.
Proof.
  intros H. unfold byte_of_N.
  rewrite N.mod_small by assumption.
  destruct (Byte.of_N n) as [b|] eqn:E.
  - now apply Byte.to_of_N.
  - apply Byte.of_N_None_iff in E. lia.
Qed.

Lemma byte_of_N_to_N (b : byte) : byte_of_N (Byte.to_N b) = b.
Proof.
  unfold byte_of_N. rewrite N.mod_small by apply to_N_lt.
  now rewrite Byte.of_to_N.
Qed.

Lemma to_N_inj (a b : byte) : Byte.to_N a = Byte.to_N b -> a = b.
Proof.
  intros H. rewrite <- (byte_of_N_to_N a), <- (byte_of_N_to_N b). now rewrite H.
Qed.

(* ================================================================= *)
(** ** UTF-8 *)

Module Utf8Facts.
Import Utf8.
Local Open Scope N_scope.
Local Opaque N.add N.sub N.mul N.div N.modulo N.ltb N.leb byte_of_N Byte.to_N.

Ltac to_N_simpl :=
  repeat (rewrite to_N_byte_of_N by nlia).

Ltac bool_to_prop :=
  repeat match goal with
  | H : (_ <? _) = true |- _ => apply N.ltb_lt in H
  | H : (_ <? _) = false |- _ => apply N.ltb_ge in H
  | H : (_ <=? _) = true |- _ => apply N.leb_le in H
  | H : (_ <=? _) = false |- _ => apply N.leb_gt in H
  | H : (_ && _) = true |- _ => apply andb_true_iff in H; destruct H
  | H : (_ && _) = false |- _ => apply andb_false_iff in H
  | H : (_ || _) = true |- _ => apply orb_true_iff in H
  | H : (_ || _) = false |- _ => apply orb_false_iff in H; destruct H
  end.

Ltac ltb_true := apply N.ltb_lt; nlia.
Ltac ltb_false := apply N.ltb_ge; nlia.
Ltac leb_true := apply N.leb_le; nlia.
Ltac leb_false := apply N.leb_gt; nlia.

Lemma div_4096 (c : N) : c / 4096 = c / 64 / 64.
Proof. rewrite N.Div0.div_div. f_equal. Qed.

Lemma div_262144 (c : N) : c / 262144 = c / 64 / 64 / 64.
Proof. rewrite !N.Div0.div_div. f_equal. Qed.

(** Decoding what [encode_char] wrote gives the character back, whatever
    follows. *)
Lemma decode_encode_char (c : N) (bs rest : bytes) :
  encode_char c = Ok bs ->
  decode (bs ++ rest) = cons_ok c (decode rest).
Proof.
  unfold encode_char.
  destruct (c <? 0x80) eqn:H1.
  { intros [= <-]. bool_to_prop. cbn [app decode].
    to_N_simpl. replace (c <? 128) with true by (symmetry; ltb_true).
    reflexivity. }
  destruct (c <? 0x800) eqn:H2.
  { intros [= <-]. bool_to_prop. cbn [app decode]. unfold is_cont, cont.
    to_N_simpl.
    replace (192 + c / 64 <? 128) with false by (symmetry; ltb_false).
    replace (192 + c / 64 <? 192) with false by (symmetry; ltb_false).
    replace (192 + c / 64 <? 224) with true by (symmetry; ltb_true).
    replace (128 <=? 128 + c mod 64) with true by (symmetry; leb_true).
    replace (128 + c mod 64 <? 192) with true by (symmetry; ltb_true).
    replace ((192 + c / 64 - 192) * 64 + (128 + c mod 64 - 128)) with c by nlia.
    replace (128 <=? c) with true by (symmetry; leb_true).
    reflexivity. }
  destruct (c <? 0x10000) eqn:H3.
  { destruct ((0xD800 <=? c) && (c <=? 0xDFFF)) eqn:H4; [discriminate|].
    intros [= <-]. bool_to_prop. cbn [app decode]. unfold is_cont, cont.
    rewrite !div_4096. to_N_simpl.
    replace (224 + c / 64 / 64 <? 128) with false by (symmetry; ltb_false).
    replace (224 + c / 64 / 64 <? 192) with false by (symmetry; ltb_false).
    replace (224 + c / 64 / 64 <? 224) with false by (symmetry; ltb_false).
    replace (224 + c / 64 / 64 <? 240) with true by (symmetry; ltb_true).
    replace (128 <=? 128 + (c / 64) mod 64) with true by (symmetry; leb_true).
    replace (128 + (c / 64) mod 64 <? 192) with true by (symmetry; ltb_true).
    replace (128 <=? 128 + c mod 64) with true by (symmetry; leb_true).
    replace (128 + c mod 64 <? 192) with true by (symmetry; ltb_true).
    replace ((224 + c / 64 / 64 - 224) * 4096 + (128 + (c / 64) mod 64 - 128) * 64
             + (128 + c mod 64 - 128)) with c by nlia.
    replace (2048 <=? c) with true by (symmetry; leb_true).
    replace ((55296 <=? c) && (c <=? 57343)) with false
      by (symmetry; apply andb_false_iff; destruct H4; bool_to_prop; [left; leb_false | right; leb_false]).
    reflexivity. }
  destruct (c <? 0x110000) eqn:H5; [|discriminate].
  intros [= <-]. bool_to_prop. cbn [app decode]. unfold is_cont, cont.
  rewrite !div_4096, !div_262144. to_N_simpl.
  replace (240 + c / 64 / 64 / 64 <? 128) with false by (symmetry; ltb_false).
  replace (240 + c / 64 / 64 / 64 <? 192) with false by (symmetry; ltb_false).
  replace (240 + c / 64 / 64 / 64 <? 224) with false by (symmetry; ltb_false).
  replace (240 + c / 64 / 64 / 64 <? 240) with false by (symmetry; ltb_false).
  replace (240 + c / 64 / 64 / 64 <? 248) with true by (symmetry; ltb_true).
  replace (128 <=? 128 + (c / 64 / 64) mod 64) with true by (symmetry; leb_true).
  replace (128 + (c / 64 / 64) mod 64 <? 192) with true by (symmetry; ltb_true).
  replace (128 <=? 128 + (c / 64) mod 64) with true by (symmetry; leb_true).
  replace (128 + (c / 64) mod 64 <? 192) with true by (symmetry; ltb_true).
  replace (128 <=? 128 + c mod 64) with true by (symmetry; leb_true).
  replace (128 + c mod 64 <? 192) with true by (symmetry; ltb_true).
  replace ((240 + c / 64 / 64 / 64 - 240) * 262144
           + (128 + (c / 64 / 64) mod 64 - 128) * 4096
           + (128 + (c / 64) mod 64 - 128) * 64
           + (128 + c mod 64 - 128)) with c by nlia.
  replace (65536 <=? c) with true by (symmetry; leb_true).
  replace (c <? 1114112) with true by (symmetry; ltb_true).
  reflexivity.
Qed.

Lemma scalar_spec (c : N) :
  scalar c = true <-> c < 0xD800 \/ (0xDFFF < c /\ c < 0x110000).
Proof.
  unfold scalar.
  rewrite orb_true_iff, andb_true_iff, !N.ltb_lt. reflexivity.
Qed.

Lemma encode_char_scalar (c : N) :
  scalar c = true <-> exists bs, encode_char c = Ok bs.
Proof.
  rewrite scalar_spec. unfold encode_char.
  destruct (c <? 0x80) eqn:H1; [bool_to_prop; split; [eauto | left; lia]|].
  destruct (c <? 0x800) eqn:H2; [bool_to_prop; split; [eauto | left; lia]|].
  destruct (c <? 0x10000) eqn:H3.
  - destruct ((0xD800 <=? c) && (c <=? 0xDFFF)) eqn:H4.
    + bool_to_prop. split; [lia | intros [bs [=]]].
    + bool_to_prop. split; [eauto | intros _].
      destruct H4; bool_to_prop; lia.
  - destruct (c <? 0x110000) eqn:H5; bool_to_prop.
    + split; [eauto | right; lia].
    + split; [lia | intros [bs [=]]].
Qed.

(** A text of scalar values can be encoded. *)
Lemma encode_total (s : pystr) :
  forallb scalar s = true -> exists bs, encode s = Ok bs.
Proof.
  induction s as [|c s IH]; cbn [forallb encode]; intros H.
  - eauto.
  - apply andb_true_iff in H. destruct H as [Hc Hs].
    destruct (proj1 (encode_char_scalar c) Hc) as [bs ->].
    destruct (IH Hs) as [r ->]. eauto.
Qed.

(** The round trip of the codec. *)
Lemma decode_encode (s : pystr) (bs : bytes) :
  encode s = Ok bs -> decode bs = Ok s.
Proof.
  revert bs. induction s as [|c s IH]; cbn [encode]; intros bs.
  - now intros [= <-].
  - destruct (encode_char c) as [b1|] eqn:E1; [|discriminate].
    destruct (encode s) as [r|] eqn:E2; [|discriminate].
    intros [= <-]. rewrite (decode_encode_char c _ r E1), (IH r eq_refl).
    reflexivity.
Qed.

(** Only scalar values can be encoded. *)
Lemma encode_ok_scalar (s : pystr) (bs : bytes) :
  encode s = Ok bs -> forallb scalar s = true.
Proof.
  revert bs. induction s as [|c s IH]; cbn [encode forallb]; intros bs; [reflexivity|].
  destruct (encode_char c) as [b1|] eqn:E1; [|discriminate].
  destruct (encode s) as [r|] eqn:E2; [|discriminate].
  intros _. rewrite (IH r eq_refl), andb_true_r.
  apply encode_char_scalar. eauto.
Qed.

(** ASCII bytes decode to their own values. *)
Lemma decode_ascii (bs : bytes) :
  Forall (fun b => Byte.to_N b < 128) bs -> decode bs = Ok (map Byte.to_N bs).
Proof.
  induction 1 as [|b bs Hb _ IH]; [reflexivity|].
  cbn [decode map]. apply N.ltb_lt in Hb. rewrite Hb, IH. reflexivity.
Qed.

End Utf8Facts.

(* ================================================================= *)
(** ** PKCS#7 padding *)

Module PaddingFacts.
Import Padding.

Lemma bytes_eqb_refl (a : bytes) : bytes_eqb a a = true.
Proof. unfold bytes_eqb. now destruct (list_eq_dec Byte.byte_eq_dec a a). Qed.

Lemma pad_length (data : bytes) (bs : nat) :
  (0 < bs)%nat -> (List.length (pad data bs) mod bs = 0)%nat.
Proof.
  intros Hbs. unfold pad. rewrite length_app, repeat_length.
  pose proof (Nat.mod_upper_bound (List.length data) bs ltac:(lia)) as Hm.
  pose proof (Nat.div_mod_eq (List.length data) bs) as Hd.
  replace (List.length data + (bs - List.length data mod bs))%nat
    with ((List.length data / bs + 1) * bs)%nat by nia.
  apply Nat.Div0.mod_mul.
Qed.

Lemma last_app_repeat (data : bytes) (b : byte) (n : nat) :
  (0 < n)%nat -> last (data ++ repeat b n) x00 = b.
Proof.
  intros Hn. destruct n as [|n]; [lia|].
  replace (repeat b (S n)) with (repeat b n ++ [b]).
  - now rewrite app_assoc, last_last.
  - clear. induction n as [|n IH]; [reflexivity|]. cbn [repeat app]. now rewrite IH.
Qed.

(** Removing the padding gives the data back. *)
Lemma unpad_pad (data : bytes) (bs : nat) :
  (0 < bs < 256)%nat -> unpad (pad data bs) bs = Ok data.
Proof.
  intros Hbs. unfold unpad. rewrite pad_length by lia.
  unfold pad.
  pose proof (Nat.mod_upper_bound (List.length data) bs ltac:(lia)) as Hm.
  set (p := (bs - List.length data mod bs)%nat) in *.
  assert (Hp : (0 < p <= bs)%nat) by (unfold p; lia).
  rewrite length_app, repeat_length.
  rewrite last_app_repeat by lia.
  rewrite to_N_byte_of_N by lia. rewrite Nat2N.id.
  replace (List.length data + p =? 0)%nat with false by (symmetry; apply Nat.eqb_neq; lia).
  cbn [negb Nat.eqb].
  replace (p <? 1)%nat with false by (symmetry; apply Nat.ltb_ge; lia).
  replace (Nat.min bs (List.length data + p) <? p)%nat with false
    by (symmetry; apply Nat.ltb_ge; lia).
  cbn [orb].
  replace (List.length data + p - p)%nat with (List.length data) by lia.
  rewrite skipn_app, skipn_all, Nat.sub_diag. cbn [skipn app].
  rewrite bytes_eqb_refl. cbn [negb].
  rewrite firstn_app, firstn_all, Nat.sub_diag. cbn [firstn].
  now rewrite app_nil_r.
Qed.

End PaddingFacts.

(* ================================================================= *)
(** ** Base64 *)

(** Induction over a list three elements at a time. *)
Lemma list_ind3 (A : Type) (P : list A -> Prop) :
  P [] -> (forall a, P [a]) -> (forall a b, P [a; b]) ->
  (forall a b c l, P l -> P (a :: b :: c :: l)) ->
  forall l, P l.
Proof.
  intros H0 H1 H2 H3 l.
  enough (P l /\ (forall a, P (a :: l)) /\ (forall a b, P (a :: b :: l))) by tauto.
  induction l as [|x l (IHa & IHb & IHc)]; auto.
Qed.

Module Base64Facts.
Import Base64.
Local Open Scope N_scope.

Lemma sextet_cases (P : N -> Prop) :
  Forall P (map N.of_nat (seq 0 64)) -> forall n, n < 64 -> P n.
Proof.
  intros H n Hn. rewrite Forall_forall in H. apply H.
  rewrite <- (N2Nat.id n). apply in_map, in_seq. lia.
Qed.

Lemma a2b_b2a (n : N) : n < 64 -> a2b (b2a n) = Some n.
Proof.
  apply (sextet_cases (fun n => a2b (b2a n) = Some n)).
  repeat constructor.
Qed.

Lemma b2a_not_pad (n : N) : n < 64 -> Byte.eqb (b2a n) pad_char = false.
Proof.
  apply (sextet_cases (fun n => Byte.eqb (b2a n) pad_char = false)).
  repeat constructor.
Qed.

Lemma b2a_ascii (n : N) : Byte.to_N (b2a n) < 128.
Proof.
  unfold b2a.
  destruct (nth_in_or_default (N.to_nat n) alphabet pad_char) as [H | ->].
  - revert H. generalize (nth (N.to_nat n) alphabet pad_char). apply Forall_forall.
    unfold alphabet. cbn. repeat constructor.
  - reflexivity.
Qed.

Lemma b64encode_ascii (s : bytes) :
  Forall (fun b => Byte.to_N b < 128) (b64encode s).
Proof.
  induction s as [| a | a b | a b c l IH] using list_ind3; cbn [b64encode].
  - constructor.
  - repeat constructor; try apply b2a_ascii.
  - repeat constructor; try apply b2a_ascii.
  - repeat (constructor; [apply b2a_ascii|]). exact IH.
Qed.

Lemma encode_ascii_bytes (bs : bytes) :
  Forall (fun b => Byte.to_N b < 128) bs ->
  encode_ascii (map Byte.to_N bs) = Ok bs.
Proof.
  induction 1 as [|b bs Hb _ IH]; [reflexivity|].
  cbn [map encode_ascii]. apply N.ltb_lt in Hb. rewrite Hb, IH.
  now rewrite byte_of_N_to_N.
Qed.

Local Opaque N.add N.sub N.mul N.div N.modulo N.ltb N.leb byte_of_N Byte.to_N
      b2a a2b Byte.eqb.

Ltac step n :=
  rewrite (a2b_b2a n), (b2a_not_pad n) by nlia.

Lemma emit (b : byte) (n : N) :
  n = Byte.to_N b -> byte_of_N n = b.
Proof. intros ->. apply byte_of_N_to_N. Qed.

(** The decoding loop reads back what [b64encode] wrote. *)
Lemma a2b_loop_b64encode (s : bytes) (out : bytes) :
  a2b_loop {| quad_pos := 0; leftchar := 0; pads := 0; bin_data := out |}
           (b64encode s) = Ok (rev out ++ s).
Proof.
  revert out.
  induction s as [| a | a b | a b c l IH] using list_ind3; intros out;
    cbn [b64encode].
  - cbn. now rewrite app_nil_r.
  - pose proof (to_N_lt a).
    cbn [a2b_loop quad_pos leftchar pads bin_data].
    step (Byte.to_N a / 4). cbn [quad_pos leftchar pads bin_data].
    step (Byte.to_N a mod 4 * 16). cbn [quad_pos leftchar pads bin_data].
    replace (Byte.eqb pad_char pad_char) with true by reflexivity.
    cbn [quad_pos leftchar pads bin_data].
    replace (2 <=? 2) with true by reflexivity.
    replace (4 <=? 2 + (0 + 1)) with false by reflexivity.
    replace (4 <=? 2 + (0 + 1 + 1)) with true by reflexivity.
    cbn [rev]. rewrite <- ?app_assoc. cbn [app].
    repeat (f_equal; try (apply emit; nlia)).
  - pose proof (to_N_lt a). pose proof (to_N_lt b).
    cbn [a2b_loop quad_pos leftchar pads bin_data].
    step (Byte.to_N a / 4). cbn [quad_pos leftchar pads bin_data].
    step (Byte.to_N a mod 4 * 16 + Byte.to_N b / 16).
    cbn [quad_pos leftchar pads bin_data].
    step (Byte.to_N b mod 16 * 4). cbn [quad_pos leftchar pads bin_data].
    replace (Byte.eqb pad_char pad_char) with true by reflexivity.
    replace (2 <=? 3) with true by reflexivity.
    replace (4 <=? 3 + (0 + 1)) with true by reflexivity.
    cbn [rev]. rewrite <- ?app_assoc. cbn [app].
    repeat (f_equal; try (apply emit; nlia)).
  - pose proof (to_N_lt a). pose proof (to_N_lt b). pose proof (to_N_lt c).
    cbn [a2b_loop quad_pos leftchar pads bin_data].
    step (Byte.to_N a / 4). cbn [quad_pos leftchar pads bin_data].
    step (Byte.to_N a mod 4 * 16 + Byte.to_N b / 16).
    cbn [quad_pos leftchar pads bin_data].
    step (Byte.to_N b mod 16 * 4 + Byte.to_N c / 64).
    cbn [quad_pos leftchar pads bin_data].
    step (Byte.to_N c mod 64). cbn [quad_pos leftchar pads bin_data].
    rewrite IH. cbn [rev]. rewrite <- ?app_assoc. cbn [app].
    repeat (f_equal; try (apply emit; nlia)).
Qed.

(** The round trip of the codec, through the [str] the service stores. *)
Lemma b64decode_b64encode (s : bytes) :
  b64decode (map Byte.to_N (b64encode s)) = Ok s.
Proof.
  unfold b64decode, a2b_base64.
  rewrite encode_ascii_bytes by apply b64encode_ascii.
  apply a2b_loop_b64encode.
Qed.

End Base64Facts.

(* ================================================================= *)
(** ** JSON *)

Module JsonFacts.
Import Json.
Local Open Scope N_scope.

(** The characters [json.dumps] writes as they are, and [scanstring] reads
    as they are. *)
Definition plain (c : N) : bool :=
  (32 <=? c) && (c <=? 126) && negb (c =? 34) && negb (c =? 92).

Lemma escape_char_plain (c : N) : plain c = true -> escape_char c = [c].
Proof.
  unfold plain, escape_char. intros H.
  repeat (apply andb_true_iff in H; destruct H as [H ?]).
  apply N.leb_le in H.
  repeat match goal with
  | H : negb (_ =? _) = true |- _ => apply negb_true_iff in H; rewrite H
  | H : (_ <=? _) = true |- _ => apply N.leb_le in H
  end.
  replace (c =? 10) with false by (symmetry; apply N.eqb_neq; lia).
  replace (c =? 13) with false by (symmetry; apply N.eqb_neq; lia).
  replace (c =? 9) with false by (symmetry; apply N.eqb_neq; lia).
  replace (c =? 8) with false by (symmetry; apply N.eqb_neq; lia).
  replace (c =? 12) with false by (symmetry; apply N.eqb_neq; lia).
  replace (32 <=? c) with true by (symmetry; apply N.leb_le; lia).
  replace (c <=? 126) with true by (symmetry; apply N.leb_le; lia).
  reflexivity.
Qed.

Lemma escape_plain (s : pystr) :
  forallb plain s = true -> flat_map escape_char s = s.
Proof.
  induction s as [|c s IH]; cbn [forallb flat_map]; [reflexivity|].
  intros H. apply andb_true_iff in H. destruct H as [Hc Hs].
  now rewrite escape_char_plain, IH.
Qed.

Lemma scanstring_plain (s rest : pystr) :
  forallb plain s = true -> scanstring (s ++ 34 :: rest) = Some (s, rest).
Proof.
  induction s as [|c s IH]; cbn [forallb app]; intros H.
  - reflexivity.
  - apply andb_true_iff in H. destruct H as [Hc Hs].
    cbn [scanstring]. rewrite (IH Hs). unfold plain in Hc.
    repeat (apply andb_true_iff in Hc; destruct Hc as [Hc ?]).
    repeat match goal with
    | H : negb (_ =? _) = true |- _ => apply negb_true_iff in H; rewrite H
    | H : (_ <=? _) = true |- _ => apply N.leb_le in H
    end.
    replace (c <? 32) with false by (symmetry; apply N.ltb_ge; lia).
    reflexivity.
Qed.

Lemma b2a_plain (n : N) : plain (Byte.to_N (Base64.b2a n)) = true.
Proof.
  unfold Base64.b2a.
  destruct (nth_in_or_default (N.to_nat n) Base64.alphabet Base64.pad_char)
    as [H | ->].
  - revert H. generalize (nth (N.to_nat n) Base64.alphabet Base64.pad_char).
    apply Forall_forall. unfold Base64.alphabet. cbn. repeat constructor.
  - reflexivity.
Qed.

Lemma b64encode_plain (s : bytes) :
  forallb plain (map Byte.to_N (Base64.b64encode s)) = true.
Proof.
  induction s as [| a | a b | a b c l IH] using list_ind3;
    cbn [Base64.b64encode map forallb]; rewrite ?b2a_plain; auto.
Qed.

(** The bundle [encrypt_data] writes, piece by piece. *)
Lemma dumps_bundle (iv ct : pystr) :
  forallb plain iv = true -> forallb plain ct = true ->
  dumps [(str "iv", iv); (str "ciphertext", ct)]
  = 123 :: 34 :: str "iv" ++ 34 :: 58 :: 32 :: 34 :: iv
      ++ 34 :: 44 :: 32 :: 34 :: str "ciphertext" ++ 34 :: 58 :: 32 :: 34 :: ct
      ++ 34 :: [125].
Proof.
  intros Hiv Hct. unfold dumps, dumps_items, dumps_str.
  rewrite (escape_plain iv Hiv), (escape_plain ct Hct).
  rewrite (escape_plain (str "iv")), (escape_plain (str "ciphertext"))
    by reflexivity.
  change (str "{") with [123]. change (str "}") with [125].
  change (str ": ") with [58; 32]. change (str ", ") with [44; 32].
  repeat first [rewrite <- app_assoc | progress cbn [app]]. reflexivity.
Qed.

Lemma scan_once_string (fuel : nat) (s rest : pystr) :
  forallb plain s = true ->
  scan_once (S fuel) (34 :: s ++ 34 :: rest) = Some (JStr s, rest).
Proof.
  intros Hs. cbn [scan_once]. cbn [N.eqb Pos.eqb].
  now rewrite (scanstring_plain s rest Hs).
Qed.

(** An object of two members whose keys and values are plain strings. *)
Lemma scan_once_object (fuel : nat) (k1 v1 k2 v2 : pystr) :
  forallb plain k1 = true -> forallb plain v1 = true ->
  forallb plain k2 = true -> forallb plain v2 = true ->
  scan_once (S (S fuel))
    (123 :: 34 :: k1 ++ 34 :: 58 :: 32 :: 34 :: v1
       ++ 34 :: 44 :: 32 :: 34 :: k2 ++ 34 :: 58 :: 32 :: 34 :: v2
       ++ 34 :: [125])
  = Some (JDict (dict_of_pairs [(k1, JStr v1); (k2, JStr v2)]), []).
Proof.
  intros Hk1 Hv1 Hk2 Hv2.
  pose proof (scan_once_string fuel) as Hf.
  revert Hf. generalize (S fuel) as f. intros f Hf.
  cbn [scan_once]. cbn [N.eqb Pos.eqb skip_ws is_ws orb List.length].
  rewrite (scanstring_plain k1 _ Hk1).
  cbn [N.eqb Pos.eqb skip_ws is_ws orb].
  rewrite (Hf v1 _ Hv1).
  cbn [N.eqb Pos.eqb skip_ws is_ws orb].
  destruct (List.length (k1 ++ 34 :: 58 :: 32 :: 34 :: v1 ++ 34 :: 44 :: 32
                          :: 34 :: k2 ++ 34 :: 58 :: 32 :: 34 :: v2 ++ [34; 125]))
    as [|n] eqn:E.
  { rewrite !length_app in E. cbn [List.length] in E. lia. }
  rewrite (scanstring_plain k2 _ Hk2).
  cbn [N.eqb Pos.eqb skip_ws is_ws orb].
  rewrite (Hf v2 _ Hv2).
  cbn [N.eqb Pos.eqb skip_ws is_ws orb rev app].
  reflexivity.
Qed.

(** [json.loads] reads the bundle back. *)
Lemma loads_dumps_bundle (iv ct : pystr) :
  forallb plain iv = true -> forallb plain ct = true ->
  loads (dumps [(str "iv", iv); (str "ciphertext", ct)])
  = Ok (JDict [(str "iv", JStr iv); (str "ciphertext", JStr ct)]).
Proof.
  intros Hiv Hct. rewrite (dumps_bundle iv ct Hiv Hct).
  unfold loads. cbn [skip_ws is_ws N.eqb Pos.eqb orb List.length].
  rewrite scan_once_object by (assumption || reflexivity).
  reflexivity.
Qed.

End JsonFacts.

(* ================================================================= *)
(** ** AES *)

Module AESFacts.
Import AES.

Lemma all_bytes_complete (b : byte) : In b all_bytes.
Proof.
  unfold all_bytes. rewrite <- (byte_of_N_to_N b), <- (N2Nat.id (Byte.to_N b)).
  apply (in_map (fun n => byte_of_N (N.of_nat n))), in_seq.
  pose proof (to_N_lt b). lia.
Qed.

(** A property checked on each of the 256 bytes holds of every byte. *)
Lemma byte_forall (P : byte -> bool) :
  forallb P all_bytes = true -> forall b, P b = true.
Proof.
  intros H b. rewrite forallb_forall in H. apply H, all_bytes_complete.
Qed.

Lemma byte_forall2 (P : byte -> byte -> bool) :
  forallb (fun a => forallb (P a) all_bytes) all_bytes = true ->
  forall a b, P a b = true.
Proof.
  intros H a b. apply (byte_forall (P a)).
  exact (byte_forall (fun a => forallb (P a) all_bytes) H a).
Qed.

(** *** The bits of a byte, least significant first *)

Definition bits : Type :=
  (bool * (bool * (bool * (bool * (bool * (bool * (bool * bool)))))))%type.

Definition bits_eqb (x y : bits) : bool :=
  let '(x0, (x1, (x2, (x3, (x4, (x5, (x6, x7))))))) := x in
  let '(y0, (y1, (y2, (y3, (y4, (y5, (y6, y7))))))) := y in
  Bool.eqb x0 y0 && Bool.eqb x1 y1 && Bool.eqb x2 y2 && Bool.eqb x3 y3
  && Bool.eqb x4 y4 && Bool.eqb x5 y5 && Bool.eqb x6 y6 && Bool.eqb x7 y7.

Lemma bits_eqb_eq (x y : bits) : bits_eqb x y = true -> x = y.
Proof.
  destruct x as (x0 & x1 & x2 & x3 & x4 & x5 & x6 & x7).
  destruct y as (y0 & y1 & y2 & y3 & y4 & y5 & y6 & y7).
  unfold bits_eqb. rewrite !andb_true_iff, !Bool.eqb_true_iff.
  intuition congruence.
Qed.

Definition xor8 (x y : bits) : bits :=
  let '(x0, (x1, (x2, (x3, (x4, (x5, (x6, x7))))))) := x in
  let '(y0, (y1, (y2, (y3, (y4, (y5, (y6, y7))))))) := y in
  (xorb x0 y0, (xorb x1 y1, (xorb x2 y2, (xorb x3 y3,
   (xorb x4 y4, (xorb x5 y5, (xorb x6 y6, xorb x7 y7))))))).

Definition xtime8 (x : bits) : bits :=
  let '(x0, (x1, (x2, (x3, (x4, (x5, (x6, x7))))))) := x in
  (x7, (xorb x0 x7, (x1, (xorb x2 x7, (xorb x3 x7, (x4, (x5, x6))))))).

Lemma to_bits_bxor (a b : byte) :
  Byte.to_bits (bxor a b) = xor8 (Byte.to_bits a) (Byte.to_bits b).
Proof.
  apply bits_eqb_eq. revert a b.
  apply (byte_forall2
           (fun a b => bits_eqb (Byte.to_bits (bxor a b))
                                (xor8 (Byte.to_bits a) (Byte.to_bits b)))).
  vm_compute. reflexivity.
Qed.

Lemma to_bits_xtime (a : byte) :
  Byte.to_bits (xtime a) = xtime8 (Byte.to_bits a).
Proof.
  apply bits_eqb_eq. revert a.
  apply (byte_forall
           (fun a => bits_eqb (Byte.to_bits (xtime a)) (xtime8 (Byte.to_bits a)))).
  vm_compute. reflexivity.
Qed.

Lemma to_bits_inj (a b : byte) : Byte.to_bits a = Byte.to_bits b -> a = b.
Proof.
  intros H. rewrite <- (Byte.of_bits_to_bits a), <- (Byte.of_bits_to_bits b).
  now rewrite H.
Qed.

Lemma pair_eq (A B : Type) (a c : A) (b d : B) :
  a = c -> b = d -> (a, b) = (c, d).
Proof. now intros -> ->. Qed.

Ltac bitwise := repeat apply pair_eq; btauto.

Lemma bxor_cancel (a b : byte) : bxor (bxor a b) b = a.
Proof.
  apply to_bits_inj. rewrite !to_bits_bxor.
  destruct (Byte.to_bits a) as (x0 & x1 & x2 & x3 & x4 & x5 & x6 & x7).
  destruct (Byte.to_bits b) as (y0 & y1 & y2 & y3 & y4 & y5 & y6 & y7).
  cbn [xor8]. bitwise.
Qed.

Lemma inv_sbox_sbox (a : byte) : inv_sbox (sbox a) = a.
Proof.
  enough (H : Byte.eqb (inv_sbox (sbox a)) a = true) by now apply Byte.byte_dec_bl.
  revert a. apply (byte_forall (fun a => Byte.eqb (inv_sbox (sbox a)) a)).
  vm_compute. reflexivity.
Qed.

(** *** The steps of a round and their inverses *)

Lemma inv_sub_bytes_sub_bytes (s : bytes) : inv_sub_bytes (sub_bytes s) = s.
Proof.
  unfold inv_sub_bytes, sub_bytes. rewrite map_map.
  rewrite <- (map_id s) at 2. apply map_ext, inv_sbox_sbox.
Qed.

Lemma inv_shift_rows_shift_rows (s : bytes) : inv_shift_rows (shift_rows s) = s.
Proof.
  do 17 (destruct s as [|? s]; [reflexivity|]). reflexivity.
Qed.

Local Opaque bxor xtime.

Lemma inv_mix_column_mix_column (a0 a1 a2 a3 : byte) :
  match mix_column a0 a1 a2 a3 with
  | [m0; m1; m2; m3] => inv_mix_column m0 m1 m2 m3
  | _ => []
  end = [a0; a1; a2; a3].
Proof.
  cbv -[bxor xtime].
  repeat f_equal; apply to_bits_inj;
    repeat first [rewrite to_bits_bxor | rewrite to_bits_xtime];
    change (Byte.to_bits x00)
      with (false, (false, (false, (false, (false, (false, (false, false)))))));
    destruct (Byte.to_bits a0) as (x0 & x1 & x2 & x3 & x4 & x5 & x6 & x7);
    destruct (Byte.to_bits a1) as (y0 & y1 & y2 & y3 & y4 & y5 & y6 & y7);
    destruct (Byte.to_bits a2) as (z0 & z1 & z2 & z3 & z4 & z5 & z6 & z7);
    destruct (Byte.to_bits a3) as (t0 & t1 & t2 & t3 & t4 & t5 & t6 & t7);
    cbn [xor8 xtime8]; bitwise.
Qed.

Lemma inv_mix_columns_mix_columns (s : bytes) :
  inv_mix_columns (mix_columns s) = s.
Proof.
  enough (inv_mix_columns (mix_columns s) = s
          /\ (forall a, inv_mix_columns (mix_columns (a :: s)) = a :: s)
          /\ (forall a b, inv_mix_columns (mix_columns (a :: b :: s)) = a :: b :: s)
          /\ (forall a b c, inv_mix_columns (mix_columns (a :: b :: c :: s))
                            = a :: b :: c :: s)) by tauto.
  induction s as [|d s (IH0 & IH1 & IH2 & IH3)].
  - repeat split; reflexivity.
  - repeat split; auto. intros a b c.
    pose proof (inv_mix_column_mix_column a b c d) as H.
    cbn [mix_columns mix_column app inv_mix_columns] in *.
    rewrite H, IH0. reflexivity.
Qed.

Lemma xor_bytes_cancel (a b : bytes) : xor_bytes (xor_bytes a b) b = a.
Proof.
  revert b. induction a as [|x a IH]; intros [|y b]; cbn [xor_bytes]; auto.
  now rewrite bxor_cancel, IH.
Qed.

Lemma inv_round_round (s k : bytes) : inv_round (round s k) k = s.
Proof.
  unfold inv_round, round, add_round_key.
  now rewrite xor_bytes_cancel, inv_mix_columns_mix_columns,
    inv_shift_rows_shift_rows, inv_sub_bytes_sub_bytes.
Qed.

Lemma inv_final_round_final_round (s k : bytes) :
  inv_final_round (final_round s k) k = s.
Proof.
  unfold inv_final_round, final_round, add_round_key.
  now rewrite xor_bytes_cancel, inv_shift_rows_shift_rows, inv_sub_bytes_sub_bytes.
Qed.

Lemma inv_rounds_rounds (ks : list bytes) (s : bytes) :
  inv_rounds (rounds s ks) ks = s.
Proof.
  revert s. induction ks as [|k ks IH]; intros s; [reflexivity|].
  destruct ks as [|k' ks].
  - apply inv_final_round_final_round.
  - change (inv_round (inv_rounds (rounds (round s k) (k' :: ks)) (k' :: ks)) k = s).
    rewrite IH. apply inv_round_round.
Qed.

(** The inverse cipher undoes the cipher, for every list of round keys. *)
Lemma decrypt_block_encrypt_block (rks : list bytes) (block : bytes) :
  decrypt_block rks (encrypt_block rks block) = block.
Proof.
  destruct rks as [|k0 ks]; [reflexivity|].
  unfold decrypt_block, encrypt_block, add_round_key.
  now rewrite inv_rounds_rounds, xor_bytes_cancel.
Qed.

(** *** Lengths *)

Lemma xor_bytes_length (a b : bytes) : List.length (xor_bytes a b) = List.length a.
Proof.
  revert b. induction a as [|x a IH]; intros [|y b]; cbn [xor_bytes List.length]; auto.
Qed.

Lemma shift_rows_length (s : bytes) : List.length (shift_rows s) = List.length s.
Proof. do 17 (destruct s as [|? s]; [reflexivity|]). reflexivity. Qed.

Lemma mix_columns_length (s : bytes) : List.length (mix_columns s) = List.length s.
Proof.
  enough (List.length (mix_columns s) = List.length s
          /\ (forall a, List.length (mix_columns (a :: s)) = S (List.length s))
          /\ (forall a b, List.length (mix_columns (a :: b :: s))
                          = S (S (List.length s)))
          /\ (forall a b c, List.length (mix_columns (a :: b :: c :: s))
                            = S (S (S (List.length s))))) by tauto.
  induction s as [|d s (IH0 & IH1 & IH2 & IH3)].
  - repeat split; reflexivity.
  - repeat split; auto. intros a b c.
    cbn [mix_columns mix_column app List.length]. now rewrite IH0.
Qed.

Lemma rounds_length (ks : list bytes) (s : bytes) :
  List.length (rounds s ks) = List.length s.
Proof.
  revert s. induction ks as [|k ks IH]; intros s; [reflexivity|].
  destruct ks as [|k' ks].
  - unfold rounds, final_round, add_round_key, sub_bytes.
    now rewrite xor_bytes_length, shift_rows_length, length_map.
  - change (List.length (rounds (round s k) (k' :: ks)) = List.length s).
    rewrite IH. unfold round, add_round_key, sub_bytes.
    now rewrite xor_bytes_length, mix_columns_length, shift_rows_length, length_map.
Qed.

Lemma encrypt_block_length (rks : list bytes) (block : bytes) :
  List.length (encrypt_block rks block) = List.length block.
Proof.
  destruct rks as [|k0 ks]; [reflexivity|].
  unfold encrypt_block, add_round_key. now rewrite rounds_length, xor_bytes_length.
Qed.

(** *** CBC *)

Lemma chunks_app (fuel : nat) (c rest : bytes) :
  List.length c = block_size -> (List.length rest < fuel)%nat ->
  chunks fuel (c ++ rest) = c :: chunks (pred fuel) rest.
Proof.
  intros Hc Hf. destruct fuel as [|fuel]; [lia|].
  cbn [chunks pred]. destruct (c ++ rest) as [|x l] eqn:E.
  - destruct c; [discriminate Hc | discriminate E].
  - rewrite <- E. rewrite firstn_app, skipn_app, Hc, Nat.sub_diag.
    rewrite firstn_all2, skipn_all2 by lia. cbn [firstn skipn].
    now rewrite app_nil_r.
Qed.

(** The chunks of whole blocks are blocks, and together they are the data. *)
Lemma chunks_blocks (fuel : nat) (data : bytes) :
  (List.length data <= fuel)%nat -> (List.length data mod block_size = 0)%nat ->
  Forall (fun b => List.length b = block_size) (chunks fuel data)
  /\ List.concat (chunks fuel data) = data.
Proof.
  revert data. induction fuel as [|fuel IH]; intros data Hf Hm.
  - destruct data; [|cbn in Hf; lia]. split; [constructor | reflexivity].
  - cbn [chunks]. destruct data as [|x l] eqn:E; [split; [constructor | reflexivity]|].
    rewrite <- E in *. assert (Hl : (block_size <= List.length data)%nat).
    { apply Nat.Div0.mod_divides in Hm. destruct Hm as [q Hq].
      unfold block_size in *. destruct q; [rewrite E in Hq; cbn in Hq; lia | lia]. }
    destruct (IH (skipn block_size data)) as [IH1 IH2].
    + rewrite length_skipn. unfold block_size in *. lia.
    + rewrite length_skipn.
      apply Nat.Div0.mod_divides in Hm. destruct Hm as [q Hq]. rewrite Hq.
      apply Nat.Div0.mod_divides. exists (pred q). unfold block_size in *. lia.
    + split.
      * constructor; [|exact IH1]. rewrite length_firstn. lia.
      * cbn [List.concat]. rewrite IH2. apply firstn_skipn.
Qed.

Lemma cbc_decrypt_encrypt_blocks (rks : list bytes) (bs : list bytes) (prev : bytes) :
  Forall (fun b => List.length b = block_size) bs ->
  forall fuel, (List.length (List.concat bs) <= fuel)%nat ->
  cbc_decrypt_blocks rks prev (chunks fuel (cbc_encrypt_blocks rks prev bs))
  = List.concat bs.
Proof.
  intros H. revert prev. induction H as [|p bs Hp _ IH]; intros prev fuel Hf.
  - cbn. now destruct fuel.
  - cbn [cbc_encrypt_blocks List.concat] in *. rewrite length_app in Hf.
    assert (Hlen : forall q, List.length (cbc_encrypt_blocks rks q bs)
                             = List.length (List.concat bs)).
    { clear -rks. induction bs as [|b bs IHb]; intros q; [reflexivity|].
      cbn [cbc_encrypt_blocks List.concat]. rewrite !length_app, IHb.
      now rewrite encrypt_block_length, xor_bytes_length. }
    rewrite chunks_app.
    + cbn [cbc_decrypt_blocks]. rewrite decrypt_block_encrypt_block, xor_bytes_cancel.
      f_equal. apply IH. unfold block_size in *. lia.
    + now rewrite encrypt_block_length, xor_bytes_length.
    + rewrite Hlen. unfold block_size in *. lia.
Qed.

(** Decryption undoes encryption, under the same key and IV. *)
Lemma decrypt_encrypt (c : cbc_cipher) (plaintext ciphertext : bytes) :
  encrypt c plaintext = Ok ciphertext -> decrypt c ciphertext = Ok plaintext.
Proof.
  unfold encrypt, decrypt.
  destruct (List.length plaintext mod block_size =? 0)%nat eqn:Hm; [|discriminate].
  cbn [negb]. intros [= <-]. apply Nat.eqb_eq in Hm.
  destruct (chunks_blocks (List.length plaintext) plaintext (le_n _) Hm) as [Hb Hc].
  assert (Hlen : forall bs q, List.length (cbc_encrypt_blocks (round_keys c) q bs)
                              = List.length (List.concat bs)).
  { induction bs as [|b bs IHb]; intros q; [reflexivity|].
    cbn [cbc_encrypt_blocks List.concat]. rewrite !length_app, IHb.
    now rewrite encrypt_block_length, xor_bytes_length. }
  rewrite Hlen, Hc, Hm. cbn [negb Nat.eqb].
  rewrite cbc_decrypt_encrypt_blocks; [now rewrite Hc | exact Hb | now rewrite Hc].
Qed.

Lemma encrypt_ok (c : cbc_cipher) (plaintext : bytes) :
  (List.length plaintext mod block_size = 0)%nat ->
  exists ciphertext, encrypt c plaintext = Ok ciphertext.
Proof.
  intros Hm. unfold encrypt. rewrite Hm. cbn [negb Nat.eqb]. eauto.
Qed.

End AESFacts.

(* ================================================================= *)
(** ** Crypto at rest *)

(** The bytes the next draw of [n] random bytes gives, and the world after
    the draw. *)
Definition drawn (w : world) (n : nat) : bytes :=
  map (entropy w) (seq (pos w) n).

Definition advance (w : world) (n : nat) : world :=
  {| dialogs := dialogs w; net := net w; entropy := entropy w;
     pos := pos w + n; now := now w; trace := trace w |}.

(** The [str] of a base64 text. *)
Definition b64str (b : bytes) : pystr := map Byte.to_N (Base64.b64encode b).

(** The bundle [encrypt_data] returns for an IV and a ciphertext. *)
Definition bundle (iv ct : bytes) : pystr :=
  dumps [(str "iv", b64str iv); (str "ciphertext", b64str ct)].

(** The ciphertext of a text under a key and an IV: AES-CBC of the padded
    UTF-8 encoding. *)
Definition ciphertext_of (key iv : bytes) (x : pystr) : result bytes :=
  (plain <- Utf8.encode x ;;
   AES.encrypt {| AES.round_keys := AES.key_expansion key; AES.iv := iv |}
               (Padding.pad plain AES.block_size))%result.

Section CryptoFacts.

Variable cfg : config.

Lemma drawn_length (w : world) (n : nat) : List.length (drawn w n) = n.
Proof. unfold drawn. now rewrite length_map, length_seq. Qed.

Lemma new_cbc_ok (key iv : bytes) :
  AES.valid_key key = true -> List.length iv = AES.block_size ->
  AES.new_cbc key iv
  = Ok {| AES.round_keys := AES.key_expansion key; AES.iv := iv |}.
Proof.
  intros Hk Hiv. unfold AES.new_cbc. rewrite Hk, Hiv. reflexivity.
Qed.

Lemma b64str_decode (b : bytes) :
  Utf8.decode (Base64.b64encode b) = Ok (b64str b).
Proof. apply Utf8Facts.decode_ascii, Base64Facts.b64encode_ascii. Qed.

(** A text of scalar values has a ciphertext. *)
Lemma ciphertext_of_ok (key iv : bytes) (x : pystr) :
  forallb Utf8.scalar x = true -> exists ct, ciphertext_of key iv x = Ok ct.
Proof.
  intros Hx. unfold ciphertext_of.
  destruct (Utf8Facts.encode_total x Hx) as [plain ->]. cbn [rbind].
  apply AESFacts.encrypt_ok, PaddingFacts.pad_length. unfold AES.block_size. lia.
Qed.

(** What [encrypt_data] does: it draws 16 bytes for the IV and returns the
    bundle of that IV and the ciphertext under it. *)
Lemma encrypt_data_run (w : world) (x : pystr) (ct : bytes) :
  AES.valid_key (ENCRYPTION_KEY cfg) = true ->
  ciphertext_of (ENCRYPTION_KEY cfg) (drawn w 16) x = Ok ct ->
  encrypt_data cfg (JStr x) w = (Ok (bundle (drawn w 16) ct), advance w 16).
Proof.
  intros Hk Hct. unfold encrypt_data, new_cipher. rewrite Hk. cbn [negb].
  unfold bind at 1. unfold bind at 1. unfold get_random_bytes.
  fold (drawn w AES.block_size). fold (advance w AES.block_size).
  unfold lift at 1. rewrite new_cbc_ok by (assumption || apply drawn_length).
  unfold lift. cbn [encode_utf8 AES.iv].
  unfold ciphertext_of in Hct.
  destruct (Utf8.encode x) as [plain|]; [|discriminate]. cbn [rbind] in *.
  change AES.block_size with 16%nat in *. rewrite Hct. cbn [rbind].
  rewrite !b64str_decode. reflexivity.
Qed.

(** [decrypt_data] reads a bundle back. *)
Lemma decrypt_data_bundle (iv ct : bytes) (x : pystr) :
  AES.valid_key (ENCRYPTION_KEY cfg) = true ->
  List.length iv = AES.block_size ->
  ciphertext_of (ENCRYPTION_KEY cfg) iv x = Ok ct ->
  decrypt_data cfg (bundle iv ct) = Ok x.
Proof.
  intros Hk Hiv Hct. unfold decrypt_data, bundle.
  rewrite JsonFacts.loads_dumps_bundle by apply JsonFacts.b64encode_plain.
  cbn [rbind subscript dict_get]. 
  change (pystr_eqb (str "iv") (str "iv")) with true.
  change (pystr_eqb (str "iv") (str "ciphertext")) with false.
  change (pystr_eqb (str "ciphertext") (str "ciphertext")) with true.
  cbn [rbind b64decode_value]. unfold b64str.
  rewrite !Base64Facts.b64decode_b64encode. cbn [rbind].
  rewrite new_cbc_ok by assumption. cbn [rbind].
  unfold ciphertext_of in Hct.
  destruct (Utf8.encode x) as [plain|] eqn:Hx; [|discriminate]. cbn [rbind] in Hct.
  rewrite (AESFacts.decrypt_encrypt _ _ _ Hct). cbn [rbind].
  rewrite PaddingFacts.unpad_pad by (unfold AES.block_size; lia). cbn [rbind].
  now apply Utf8Facts.decode_encode.
Qed.

End CryptoFacts.

(* ================================================================= *)
(** ** Running a request *)

(** The world with further events in its trace, and with another table. *)
Definition add_events (w : world) (evs : list event) : world :=
  {| dialogs := dialogs w; net := net w; entropy := entropy w;
     pos := pos w; now := now w; trace := trace w ++ evs |}.

Definition with_dialogs (w : world) (d : list row) : world :=
  {| dialogs := d; net := net w; entropy := entropy w;
     pos := pos w; now := now w; trace := trace w |}.

Lemma add_events_add_events (w : world) (a b : list event) :
  add_events (add_events w a) b = add_events w (a ++ b).
Proof. unfold add_events. cbn. now rewrite app_assoc. Qed.

Lemma bind_run (A B : Type) (m : M A) (k : A -> M B) (w w1 : world) (a : A) :
  m w = (Ok a, w1) -> bind m k w = k a w1.
Proof. unfold bind. now intros ->. Qed.

Lemma bind_raise (A B : Type) (m : M A) (k : A -> M B) (w w1 : world) (e : exn) :
  m w = (Raise e, w1) -> bind m k w = (Raise e, w1).
Proof. unfold bind. now intros ->. Qed.

Arguments bind_run {A B} m k {w w1 a} _.
Arguments bind_raise {A B} m k {w w1 e} _.

Lemma try_finally_run (A : Type) (body : M A) (final : M unit)
      (w w1 w2 : world) (r : result A) :
  body w = (r, w1) -> final w1 = (Ok tt, w2) -> try_finally body final w = (r, w2).
Proof. unfold try_finally. now intros -> ->. Qed.

Arguments try_finally_run {A} body final {w w1 w2 r} _ _.

Lemma tell_run (ev : event) (w : world) : tell ev w = (Ok tt, add_events w [ev]).
Proof. reflexivity. Qed.

Lemma uuid4_run (w : world) :
  uuid4 w = (Ok (uuid_str (set_version4 (drawn w 16))), advance w 16).
Proof. reflexivity. Qed.

(** What [call_service] returns for an outcome of the POST, and what it
    logs. *)
Definition reply_value (o : http_outcome) : json :=
  match o with
  | HttpReply status body error_text =>
      if (status =? 200)%Z then body
      else JDict [(str "error", JStr error_text)]
  | HttpError e => JDict [(str "error", JStr e)]
  end.

Definition reply_log (url : pystr) (o : http_outcome) : list event :=
  match o with
  | HttpReply status body error_text =>
      if (status =? 200)%Z then [] else [EvLog (ServiceError status error_text)]
  | HttpError e => [EvLog (CallFailed url e)]
  end.

Lemma call_service_run (url : pystr) (data : json) (w : world) :
  call_service url data w
  = (Ok (reply_value (net w url data)),
     add_events w (EvPost url data :: reply_log url (net w url data))).
Proof.
  unfold call_service, bind, tell, get_world. cbn [net].
  destruct (net w url data) as [e | status body text]; cbn [reply_value reply_log].
  - unfold ret, add_events. cbn. now rewrite <- app_assoc.
  - destruct (status =? 200)%Z.
    + reflexivity.
    + unfold ret, add_events. cbn. now rewrite <- app_assoc.
Qed.

Lemma fetch_context_run (p1 p2 : Z) (w : world) :
  fetch_context p1 p2 w
  = (Ok (select_context (dialogs w) p1 p2),
     add_events w [EvSql (SelectContext p1 p2)]).
Proof. reflexivity. Qed.

Lemma insert_row_run (r : row) (w : world) :
  existsb (fun x => pystr_eqb (message_id x) (message_id r)) (dialogs w) = false ->
  insert_row r w
  = (Ok tt, with_dialogs (add_events w [EvSql (InsertTurn (message_id r))])
                         (dialogs w ++ [r])).
Proof.
  intros H. unfold insert_row.
  rewrite (bind_run _ _ (tell_run _ w)). cbv beta.
  unfold get_world, bind. cbn [dialogs add_events]. rewrite H. reflexivity.
Qed.

Lemma insert_row_refused (r : row) (w : world) :
  existsb (fun x => pystr_eqb (message_id x) (message_id r)) (dialogs w) = true ->
  insert_row r w
  = (Raise UniqueViolationError, add_events w [EvSql (InsertTurn (message_id r))]).
Proof.
  intros H. unfold insert_row.
  rewrite (bind_run _ _ (tell_run _ w)). cbv beta.
  unfold get_world, bind. cbn [dialogs add_events]. rewrite H. reflexivity.
Qed.

Lemma get_world_run (w : world) : get_world w = (Ok w, w).
Proof. reflexivity. Qed.

Section Running.

Variable cfg : config.

Definition auth_url : pystr := AUTH_SERVICE_URL cfg ++ str "/check".

Definition auth_request (user_id : Z) : json :=
  JDict [(str "user_id", JInt user_id)].

Definition ml_url : pystr := ML_SERVICE_URL cfg ++ str "/generate".

Definition ml_request (user_id : Z) (message_text : pystr) (context : list json)
  : json :=
  JDict [(str "user_id", JInt user_id); (str "message", JStr message_text);
         (str "context", JList context)].

(** The events of a call to the oracle. *)
Definition auth_events (w : world) (user_id : Z) : list event :=
  EvPost auth_url (auth_request user_id)
    :: reply_log auth_url (net w auth_url (auth_request user_id)).

Lemma check_authorization_run (user_id : Z) (w : world) :
  check_authorization cfg user_id w
  = (get_default (reply_value (net w auth_url (auth_request user_id)))
                 (str "authorized") (JBool false),
     add_events w (auth_events w user_id)).
Proof.
  unfold check_authorization.
  rewrite (bind_run _ _ (call_service_run _ _ w)). reflexivity.
Qed.

(** The verdict of the oracle does not depend on the table, the trace, the
    clock or the entropy drawn. *)
Lemma check_authorization_frame (user_id : Z) (w w1 : world) :
  net w1 = net w ->
  fst (check_authorization cfg user_id w1) = fst (check_authorization cfg user_id w).
Proof.
  intros H. rewrite !check_authorization_run. cbn [fst]. now rewrite H.
Qed.

(** What [get_ml_response] makes of the value [call_service] returned. *)
Definition ml_value (reply : json) : result json * list event :=
  match contains (str "error") reply with
  | Raise e => (Raise e, [])
  | Ok true =>
      match subscript reply (str "error") with
      | Raise e => (Raise e, [])
      | Ok error => (Ok (JStr apology), [EvLog (MLServiceError error)])
      end
  | Ok false => (get_default reply (str "response") (JStr []), [])
  end.

Definition ml_events (w : world) (user_id : Z) (message_text : pystr)
           (context : list json) : list event :=
  let data := ml_request user_id message_text context in
  EvPost ml_url data :: reply_log ml_url (net w ml_url data)
    ++ snd (ml_value (reply_value (net w ml_url data))).

Lemma get_ml_response_run (user_id : Z) (message_text : pystr)
      (context : list json) (w : world) :
  get_ml_response cfg user_id message_text context w
  = (fst (ml_value (reply_value
                      (net w ml_url (ml_request user_id message_text context)))),
     add_events w (ml_events w user_id message_text context)).
Proof.
  unfold get_ml_response.
  rewrite (bind_run _ _ (call_service_run _ _ w)).
  fold ml_url. fold (ml_request user_id message_text context).
  unfold ml_events, ml_value.
  set (r := reply_value (net w ml_url (ml_request user_id message_text context))).
  set (l := reply_log ml_url (net w ml_url (ml_request user_id message_text context))).
  unfold bind at 1. unfold lift at 1.
  destruct (contains (str "error") r) as [[|]|e]; cbn [fst snd].
  - unfold bind at 1. unfold lift at 1.
    destruct (subscript r (str "error")) as [err|e]; cbn [fst snd].
    + unfold bind, tell, ret, add_events. cbn.
      rewrite <- !app_assoc. reflexivity.
    + now rewrite app_nil_r.
  - unfold lift. now rewrite app_nil_r.
  - now rewrite app_nil_r.
Qed.

Lemma get_ml_response_frame (user_id : Z) (message_text : pystr)
      (context : list json) (w w1 : world) :
  net w1 = net w ->
  fst (get_ml_response cfg user_id message_text context w1)
  = fst (get_ml_response cfg user_id message_text context w).
Proof.
  intros H. rewrite !get_ml_response_run. cbn [fst]. now rewrite H.
Qed.

(** *** [process_message] *)

(** The id the next [uuid4] gives. *)
Definition new_id (w : world) : pystr := uuid_str (set_version4 (drawn w 16)).

(** The table holds no row of that id: the INSERT will be accepted. *)
Definition fresh_id (w : world) : Prop :=
  existsb (fun x => pystr_eqb (message_id x) (new_id w)) (dialogs w) = false.

(** The context [process_message] sends to the generation service. *)
Definition context_of (w : world) (m : Message.t) : list json :=
  build_context
    (select_context (dialogs w) (Message.user_id m) (Message.chat_id m))
    (Message.message_text m).

(** The answer the generation service gives to a message in a world, and
    the verdict of the oracle on a user. *)
Definition generated (w : world) (m : Message.t) : result json :=
  fst (get_ml_response cfg (Message.user_id m) (Message.message_text m)
                       (context_of w m) w).

Definition verdict (w : world) (user_id : Z) : result json :=
  fst (check_authorization cfg user_id w).

(** The row [process_message] inserts. *)
Definition turn_row (w : world) (m : Message.t) (encrypted_answer : pystr) : row :=
  {| message_id := new_id w;
     user_id := Message.user_id m;
     chat_id := Message.chat_id m;
     message_text := Some (Message.message_text m);
     is_bot_message := false;
     sent_at := now w;
     delivered_at := None;
     read_at := None;
     full_answer := Some encrypted_answer |}.

(** What [process_message] returns for the verdict and the answer. *)
Definition disclosure (authorized : json) (answer : pystr) (message_id : pystr)
  : json :=
  if truthy authorized then
    JDict [(str "full_answer", JStr answer);
           (str "truncated_answer", JNull);
           (str "message_id", JStr message_id)]
  else
    JDict [(str "full_answer", JNull);
           (str "truncated_answer",
            JStr (if (MAX_TRUNCATED_LENGTH <? List.length answer)%nat
                  then firstn MAX_TRUNCATED_LENGTH answer ++ str "..."
                  else firstn MAX_TRUNCATED_LENGTH answer));
           (str "message_id", JStr message_id)].

Definition process_events (w : world) (m : Message.t) : list event :=
  [EvConnect; EvSql (SelectContext (Message.user_id m) (Message.chat_id m))]
    ++ ml_events w (Message.user_id m) (Message.message_text m) (context_of w m)
    ++ auth_events w (Message.user_id m)
    ++ [EvSql (InsertTurn (new_id w)); EvClose].

(** A complete run of [process_message]: the generation service answers
    with a text that can be encoded, the oracle gives a verdict, and the
    table accepts the new row. *)
Lemma process_message_run (w : world) (m : Message.t) (answer : pystr)
      (authorized : json) (ct : bytes) :
  AES.valid_key (ENCRYPTION_KEY cfg) = true ->
  generated w m = Ok (JStr answer) ->
  ciphertext_of (ENCRYPTION_KEY cfg) (drawn (advance w 16) 16) answer = Ok ct ->
  verdict w (Message.user_id m) = Ok authorized ->
  fresh_id w ->
  process_message cfg m w
  = (Ok (disclosure authorized answer (new_id w)),
     {| dialogs := dialogs w
                     ++ [turn_row w m (bundle (drawn (advance w 16) 16) ct)];
        net := net w; entropy := entropy w; pos := pos w + 16 + 16;
        now := now w; trace := trace w ++ process_events w m |}).
Proof.
  intros Hk Hgen Hct Hauth Hfresh.
  unfold generated in Hgen. unfold verdict in Hauth.
  rewrite get_ml_response_run in Hgen. rewrite check_authorization_run in Hauth.
  cbn [fst] in Hgen, Hauth.
  unfold process_message.
  rewrite (bind_run _ _ (tell_run EvConnect w)).
  set (w1 := add_events w [EvConnect]).
  pose (w2 := advance w1 16).
  pose (w3 := add_events w2 [EvSql (SelectContext (Message.user_id m)
                                                  (Message.chat_id m))]).
  pose (w4 := add_events w3 (ml_events w (Message.user_id m)
                                       (Message.message_text m) (context_of w m))).
  pose (w5 := add_events w4 (auth_events w (Message.user_id m))).
  pose (w6 := advance w5 16).
  pose (w7 := add_events w6 [EvSql (InsertTurn (new_id w))]).
  pose (w8 := with_dialogs w7 (dialogs w ++ [turn_row w m (bundle (drawn (advance w 16) 16) ct)])).
  apply (try_finally_run _ _ (w1 := w8)).
  2:{ unfold close, tell, process_events, w8, w7, w6, w5, w4, w3, w2, w1.
      cbn [dialogs net entropy pos now trace with_dialogs add_events advance].
      rewrite <- !app_assoc. reflexivity. }
  rewrite (bind_run _ _ (uuid4_run w1)). cbv beta. fold w2.
  change (uuid_str (set_version4 (drawn w1 16))) with (new_id w).
  rewrite (bind_run _ _ (fetch_context_run _ _ w2)). cbv beta zeta. fold w3.
  change (dialogs w2) with (dialogs w). fold (context_of w m).
  assert (E4 : get_ml_response cfg (Message.user_id m) (Message.message_text m)
                               (context_of w m) w3 = (Ok (JStr answer), w4)).
  { rewrite get_ml_response_run. change (net w3) with (net w). now rewrite Hgen. }
  rewrite (bind_run _ _ E4). cbv beta.
  assert (E5 : check_authorization cfg (Message.user_id m) w4 = (Ok authorized, w5)).
  { rewrite check_authorization_run. change (net w4) with (net w). now rewrite Hauth. }
  rewrite (bind_run _ _ E5). cbv beta.
  assert (E6 : encrypt_data cfg (JStr answer) w5
               = (Ok (bundle (drawn (advance w 16) 16) ct), w6)).
  { apply (encrypt_data_run cfg w5 answer ct Hk). exact Hct. }
  rewrite (bind_run _ _ E6). cbv beta.
  rewrite (bind_run _ _ (get_world_run w6)). cbv beta.
  change (now w6) with (now w).
  fold (turn_row w m (bundle (drawn (advance w 16) 16) ct)).
  assert (E7 : insert_row (turn_row w m (bundle (drawn (advance w 16) 16) ct)) w6
               = (Ok tt, w8)) by (apply insert_row_run; exact Hfresh).
  rewrite (bind_run _ _ E7). cbv beta.
  unfold disclosure. destruct (truthy authorized); reflexivity.
Qed.

End Running.

Section Returns.

Variable cfg : config.

(** [encrypt_data] only touches the entropy: it draws 16 bytes or none. *)
Lemma encrypt_data_frame (data : json) (w : world) :
  snd (encrypt_data cfg data w) = w \/ snd (encrypt_data cfg data w) = advance w 16.
Proof.
  unfold encrypt_data, new_cipher.
  destruct (AES.valid_key (ENCRYPTION_KEY cfg)); cbn [negb].
  - right. unfold bind at 1. unfold bind at 1. unfold get_random_bytes.
    fold (drawn w AES.block_size). fold (advance w AES.block_size).
    unfold lift at 1.
    destruct (AES.new_cbc (ENCRYPTION_KEY cfg) (drawn w AES.block_size)); [|reflexivity].
    unfold lift. reflexivity.
  - left. reflexivity.
Qed.

(** Only a [str] is encrypted. *)
Lemma encrypt_data_ok_str (data : json) (w w1 : world) (encrypted : pystr) :
  encrypt_data cfg data w = (Ok encrypted, w1) -> exists s, data = JStr s.
Proof.
  unfold encrypt_data, new_cipher.
  destruct (AES.valid_key (ENCRYPTION_KEY cfg)); cbn [negb]; [|discriminate].
  unfold bind at 1. unfold bind at 1. unfold get_random_bytes. unfold lift at 1.
  destruct (AES.new_cbc (ENCRYPTION_KEY cfg) _); [|discriminate].
  unfold lift. destruct data; cbn [encode_utf8 rbind]; try discriminate. eauto.
Qed.

(** What a successful [encrypt_data] did. *)
Lemma encrypt_data_inv (x : pystr) (w w1 : world) (encrypted : pystr) :
  encrypt_data cfg (JStr x) w = (Ok encrypted, w1) ->
  AES.valid_key (ENCRYPTION_KEY cfg) = true
  /\ w1 = advance w 16
  /\ exists ct, ciphertext_of (ENCRYPTION_KEY cfg) (drawn w 16) x = Ok ct
                /\ encrypted = bundle (drawn w 16) ct.
Proof.
  intros H.
  destruct (AES.valid_key (ENCRYPTION_KEY cfg)) eqn:Hk.
  2:{ unfold encrypt_data, new_cipher in H. rewrite Hk in H. discriminate. }
  destruct (ciphertext_of (ENCRYPTION_KEY cfg) (drawn w 16) x) as [ct|e] eqn:Hct.
  - rewrite (encrypt_data_run cfg w x ct Hk Hct) in H.
    injection H as <- <-. eauto.
  - exfalso. revert H. unfold encrypt_data, new_cipher. rewrite Hk. cbn [negb].
    unfold bind at 1. unfold bind at 1. unfold get_random_bytes.
    fold (drawn w AES.block_size). unfold lift at 1.
    rewrite new_cbc_ok by (assumption || apply drawn_length).
    unfold lift. cbn [encode_utf8 AES.iv]. unfold ciphertext_of in Hct.
    destruct (Utf8.encode x) as [plain|]; [|discriminate]. cbn [rbind] in *.
    change AES.block_size with 16%nat in *. rewrite Hct. discriminate.
Qed.

Lemma bind_inv (A B : Type) (m : M A) (k : A -> M B) (w w' : world) (b : B) :
  bind m k w = (Ok b, w') ->
  exists a w1, m w = (Ok a, w1) /\ k a w1 = (Ok b, w').
Proof.
  unfold bind. destruct (m w) as [[a|e] w1]; [eauto | discriminate].
Qed.

Lemma try_finally_close_inv (A : Type) (body : M A) (w w' : world) (r : result A) :
  try_finally body close w = (r, w') ->
  exists w1, body w = (r, w1) /\ w' = add_events w1 [EvClose].
Proof.
  unfold try_finally. destruct (body w) as [r1 w1].
  unfold close, tell. intros [= <- <-]. eauto.
Qed.

(** Whenever [process_message] returns, the generation service gave a text
    that was encrypted, the oracle gave a verdict, the table accepted the
    row of the turn, and the response is the disclosure of the answer. *)
Lemma process_message_returns (w w' : world) (m : Message.t) (response : json) :
  process_message cfg m w = (Ok response, w') ->
  exists answer authorized ct,
    AES.valid_key (ENCRYPTION_KEY cfg) = true
    /\ generated cfg w m = Ok (JStr answer)
    /\ ciphertext_of (ENCRYPTION_KEY cfg) (drawn (advance w 16) 16) answer = Ok ct
    /\ verdict cfg w (Message.user_id m) = Ok authorized
    /\ fresh_id w
    /\ response = disclosure authorized answer (new_id w)
    /\ dialogs w'
       = dialogs w ++ [turn_row w m (bundle (drawn (advance w 16) 16) ct)].
Proof.
  intros H. unfold process_message in H.
  rewrite (bind_run _ _ (tell_run EvConnect w)) in H. cbv beta in H.
  apply try_finally_close_inv in H as (w8 & H & ->).
  rewrite (bind_run _ _ (uuid4_run _)) in H. cbv beta in H.
  rewrite (bind_run _ _ (fetch_context_run _ _ _)) in H. cbv beta zeta in H.
  apply bind_inv in H as (full_answer & w4 & E4 & H).
  apply bind_inv in H as (authorized & w5 & E5 & H).
  apply bind_inv in H as (encrypted & w6 & E6 & H).
  rewrite (bind_run _ _ (get_world_run w6)) in H. cbv beta in H.
  apply bind_inv in H as ([] & w7 & E7 & H).
  rewrite get_ml_response_run in E4. injection E4 as E4 <-.
  rewrite check_authorization_run in E5. injection E5 as E5 <-.
  destruct (encrypt_data_ok_str _ _ _ _ E6) as [answer ->].
  apply encrypt_data_inv in E6 as (Hk & -> & ct & Hct & ->).
  exists answer, authorized, ct.
  match type of E7 with insert_row ?r ?w0 = _ =>
    destruct (existsb (fun x => pystr_eqb (message_id x) (message_id r)) (dialogs w0))
      eqn:Hfresh;
    [rewrite (insert_row_refused r w0 Hfresh) in E7; discriminate
    |rewrite (insert_row_run r w0 Hfresh) in E7; injection E7 as <-]
  end.
  repeat split.
  - exact Hk.
  - unfold generated. rewrite get_ml_response_run. exact E4.
  - exact Hct.
  - unfold verdict. rewrite check_authorization_run. exact E5.
  - exact Hfresh.
  - unfold disclosure. unfold ret in H.
    destruct (truthy authorized); now injection H as <- <-.
  - unfold ret in H. destruct (truthy authorized); now injection H as <- <-.
Qed.

End Returns.

(* ================================================================= *)
(** ** Retrieval of a full answer *)

Lemma pystr_eqb_eq (a b : pystr) : pystr_eqb a b = true <-> a = b.
Proof.
  unfold pystr_eqb. destruct (list_eq_dec N.eq_dec a b); split; congruence.
Qed.

Lemma fetch_full_answer_run (p1 : pystr) (p2 : Z) (w : world) :
  fetch_full_answer p1 p2 w
  = (Ok (select_full_answer (dialogs w) p1 p2),
     add_events w [EvSql (SelectFullAnswer p1 p2)]).
Proof. reflexivity. Qed.

(** The events that reach the table or decrypt a stored field. *)
Definition reaches_store (ev : event) : bool :=
  match ev with
  | EvConnect | EvClose | EvSql _ | EvDecrypt _ => true
  | EvPost _ _ | EvLog _ => false
  end.

(** The message ids of a table are unique: the primary key. *)
Definition primary_key (table : list row) : Prop :=
  NoDup (map message_id table).

(** A row of another owner hides the message from the query. *)
Lemma select_full_answer_foreign (table : list row) (r : row) (p1 : pystr) (p2 : Z) :
  primary_key table -> In r table -> message_id r = p1 -> user_id r <> p2 ->
  select_full_answer table p1 p2 = None.
Proof.
  intros Hpk Hin Hid Howner. unfold select_full_answer.
  destruct (filter _ table) as [|x l] eqn:E; [reflexivity|].
  exfalso.
  assert (Hx : In x (filter (fun r => pystr_eqb (message_id r) p1
                                      && (user_id r =? p2)%Z) table))
    by (rewrite E; now left).
  apply filter_In in Hx as [Hx Hc]. apply andb_true_iff in Hc as [Hm Hu].
  apply pystr_eqb_eq in Hm. apply Z.eqb_eq in Hu.
  enough (x = r) by (subst x; contradiction).
  clear E l. unfold primary_key in Hpk.
  induction table as [|y table IH]; [contradiction|].
  cbn [map] in Hpk. apply NoDup_cons_iff in Hpk as [Hy Hpk].
  destruct Hx as [-> | Hx], Hin as [-> | Hin]; auto.
  - exfalso. apply Hy. rewrite Hm, <- Hid. now apply in_map.
  - exfalso. apply Hy. rewrite Hid, <- Hm. now apply in_map.
Qed.

Lemma auth_events_no_store (cfg : config) (w : world) (user_id : Z) :
  Forall (fun ev => reaches_store ev = false) (auth_events cfg w user_id).
Proof.
  unfold auth_events. constructor; [reflexivity|].
  destruct (net w _ _) as [e | status body text]; cbn [reply_log].
  - repeat constructor.
  - destruct (status =? 200)%Z; repeat constructor.
Qed.

Section Retrieval.

Variable cfg : config.

(** A denied request ends at the oracle. *)
Lemma get_full_answer_denied (w : world) (request : FullAnswerRequest.t)
      (authorized : json) :
  verdict cfg w (FullAnswerRequest.user_id request) = Ok authorized ->
  truthy authorized = false ->
  get_full_answer cfg request w
  = (Ok not_authorized,
     add_events w (auth_events cfg w (FullAnswerRequest.user_id request))).
Proof.
  intros Hv Ht. unfold verdict in Hv. rewrite check_authorization_run in Hv.
  cbn [fst] in Hv. unfold get_full_answer.
  assert (E : check_authorization cfg (FullAnswerRequest.user_id request) w
              = (Ok authorized,
                 add_events w (auth_events cfg w (FullAnswerRequest.user_id request))))
    by (rewrite check_authorization_run; now rewrite Hv).
  rewrite (bind_run _ _ E). cbv beta. now rewrite Ht.
Qed.

(** A request the oracle could not answer raises before the table is
    reached. *)
Lemma get_full_answer_oracle_raises (w : world) (request : FullAnswerRequest.t)
      (e : exn) :
  verdict cfg w (FullAnswerRequest.user_id request) = Raise e ->
  get_full_answer cfg request w
  = (Raise e, add_events w (auth_events cfg w (FullAnswerRequest.user_id request))).
Proof.
  intros Hv. unfold verdict in Hv. rewrite check_authorization_run in Hv.
  cbn [fst] in Hv. unfold get_full_answer.
  apply bind_raise. rewrite check_authorization_run. now rewrite Hv.
Qed.

(** An authorized request for a message the query does not find. *)
Lemma get_full_answer_not_found (w : world) (request : FullAnswerRequest.t)
      (authorized : json) :
  verdict cfg w (FullAnswerRequest.user_id request) = Ok authorized ->
  truthy authorized = true ->
  select_full_answer (dialogs w) (FullAnswerRequest.message_id request)
                     (FullAnswerRequest.user_id request) = None ->
  get_full_answer cfg request w
  = (Ok answer_not_found,
     add_events w (auth_events cfg w (FullAnswerRequest.user_id request)
                     ++ [EvConnect;
                         EvSql (SelectFullAnswer
                                  (FullAnswerRequest.message_id request)
                                  (FullAnswerRequest.user_id request));
                         EvClose])).
Proof.
  intros Hv Ht Hs. unfold verdict in Hv. rewrite check_authorization_run in Hv.
  cbn [fst] in Hv. unfold get_full_answer.
  set (w1 := add_events w (auth_events cfg w (FullAnswerRequest.user_id request))).
  assert (E : check_authorization cfg (FullAnswerRequest.user_id request) w
              = (Ok authorized, w1))
    by (rewrite check_authorization_run; now rewrite Hv).
  rewrite (bind_run _ _ E). cbv beta. rewrite Ht. cbn [negb].
  rewrite (bind_run _ _ (tell_run EvConnect w1)). cbv beta.
  set (w2 := add_events w1 [EvConnect]).
  set (w3 := add_events w2 [EvSql (SelectFullAnswer
                                     (FullAnswerRequest.message_id request)
                                     (FullAnswerRequest.user_id request))]).
  apply (try_finally_run _ _ (w1 := w3)).
  - rewrite (bind_run _ _ (fetch_full_answer_run _ _ w2)). cbv beta.
    change (dialogs w2) with (dialogs w). rewrite Hs. reflexivity.
  - unfold close, tell, w3, w2, w1, add_events.
    cbn [dialogs net entropy pos now trace]. rewrite <- !app_assoc. reflexivity.
Qed.

End Retrieval.

(* ================================================================= *)
(** ** Sample worlds *)

(** A deployment with an AES-256 key, a generation service that answers
    every request with [answer], and an oracle that answers every check
    with [authorized]. *)
Definition sample_config : config :=
  {| ML_SERVICE_URL := str "http://ml-service:8003";
     AUTH_SERVICE_URL := str "http://auth-service:8001";
     ENCRYPTION_KEY := map (fun n => byte_of_N (N.of_nat n)) (seq 0 32) |}.

Definition sample_net (authorized : http_outcome) (answer : pystr)
  : pystr -> json -> http_outcome :=
  fun url data =>
    if pystr_eqb url (ml_url sample_config)
    then HttpReply 200 (JDict [(str "response", JStr answer)]) []
    else if pystr_eqb url (auth_url sample_config) then authorized
    else HttpError (str "unknown host").

Definition oracle_says (b : bool) : http_outcome :=
  HttpReply 200 (JDict [(str "authorized", JBool b); (str "user_id", JInt 1)]) [].

Definition sample_world (table : list row) (authorized : http_outcome)
           (answer : pystr) : world :=
  {| dialogs := table;
     net := sample_net authorized answer;
     entropy := fun n => byte_of_N (N.of_nat (7 * n + 3));
     pos := 0;
     now := 1000;
     trace := [] |}.

(** A turn of user 2 that holds an encrypted answer. *)
Definition foreign_row : row :=
  {| message_id := str "6f1c";
     user_id := 2;
     chat_id := 9;
     message_text := Some (str "question");
     is_bot_message := false;
     sent_at := 900;
     delivered_at := None;
     read_at := None;
     full_answer :=
       Some (bundle (map (fun n => byte_of_N (N.of_nat n)) (seq 0 16)) []) |}.

(* ================================================================= *)
(** ** The claims *)

Section Claims.

Variable cfg : config.


(** C2.  When the oracle denies the user, [get_full_answer] returns
    [Not authorized] at once: the response holds no data, the only events
    are those of the call to the oracle (no connection, no statement, no
    decryption), and the table, with every [read_at], is the one before. *)
Theorem denied_request_touches_nothing (w : world)
        (request : FullAnswerRequest.t) (authorized : json) :
  verdict cfg w (FullAnswerRequest.user_id request) = Ok authorized ->
  truthy authorized = false ->
  exists w',
    get_full_answer cfg request w = (Ok not_authorized, w')
    /\ dialogs w' = dialogs w
    /\ trace w' = trace w ++ auth_events cfg w (FullAnswerRequest.user_id request)
    /\ Forall (fun ev => reaches_store ev = false)
              (auth_events cfg w (FullAnswerRequest.user_id request)).
Proof.
  intros Hv Ht. rewrite (get_full_answer_denied cfg w request authorized Hv Ht).
  eexists. split; [reflexivity|]. split; [reflexivity|]. split; [reflexivity|].
  apply auth_events_no_store.
Qed.

End Claims.


Lemma denied_request_touches_nothing_witness :
  exists w',
    get_full_answer sample_config
      {| FullAnswerRequest.user_id := 2;
         FullAnswerRequest.message_id := str "6f1c" |}
      (sample_world [foreign_row] (oracle_says false) [])
    = (Ok not_authorized, w')
    /\ dialogs w' = [foreign_row]
    /\ trace w' = [] ++ auth_events sample_config
                          (sample_world [foreign_row] (oracle_says false) []) 2
    /\ Forall (fun ev => reaches_store ev = false)
              (auth_events sample_config
                           (sample_world [foreign_row] (oracle_says false) []) 2).
Proof.
  apply (denied_request_touches_nothing sample_config
           (sample_world [foreign_row] (oracle_says false) [])
           {| FullAnswerRequest.user_id := 2;
              FullAnswerRequest.message_id := str "6f1c" |}
           (JBool false)); reflexivity.
Defined.

(** The response of an authorized turn, and of an unauthorized turn whose
    preview is [preview]. *)
Definition full_response (answer message_id : pystr) : json :=
  JDict [(str "full_answer", JStr answer);
         (str "truncated_answer", JNull);
         (str "message_id", JStr message_id)].

Definition truncated_response (preview message_id : pystr) : json :=
  JDict [(str "full_answer", JNull);
         (str "truncated_answer", JStr preview);
         (str "message_id", JStr message_id)].

(** The preview the code gives: the first [MAX_TRUNCATED_LENGTH]
    characters and three full stops when the answer is longer, the answer
    itself otherwise. *)
Definition preview_of (answer : pystr) : pystr :=
  if (MAX_TRUNCATED_LENGTH <? List.length answer)%nat
  then firstn MAX_TRUNCATED_LENGTH answer ++ str "..."
  else answer.

(** The preview as the specification words it: the marker is the single
    character U+2026. *)
Definition spec_preview_of (answer : pystr) : pystr :=
  if (MAX_TRUNCATED_LENGTH <? List.length answer)%nat
  then firstn MAX_TRUNCATED_LENGTH answer ++ [8230%N]
  else answer.

Lemma disclosure_authorized (authorized : json) (answer message_id : pystr) :
  truthy authorized = true ->
  disclosure authorized answer message_id = full_response answer message_id.
Proof. unfold disclosure. now intros ->. Qed.

Lemma disclosure_unauthorized (authorized : json) (answer message_id : pystr) :
  truthy authorized = false ->
  disclosure authorized answer message_id
  = truncated_response (preview_of answer) message_id.
Proof.
  unfold disclosure, preview_of, truncated_response. intros ->.
  destruct (MAX_TRUNCATED_LENGTH <? List.length answer)%nat eqn:E; [reflexivity|].
  apply Nat.ltb_ge in E. now rewrite firstn_all2.
Qed.

Section Disclosure.

Variable cfg : config.



End Disclosure.

(** An authorized user sends [Hello]; the generation service answers
    [Hello there]. *)
Definition hello : Message.t :=
  {| Message.user_id := 1; Message.message_text := str "Hello";
     Message.chat_id := 5 |}.


(** An answer of 120 characters. *)
Definition long_answer : pystr := repeat 97%N 120.



(** The ways a call to the oracle fails: the service cannot be reached, it
    replies with a status other than 200, or it replies with an object
    that carries no verdict, such as [{"error": ...}]. *)
Inductive oracle_failure : http_outcome -> Prop :=
| oracle_unreachable (e : pystr) : oracle_failure (HttpError e)
| oracle_bad_status (status : Z) (body : json) (text : pystr) :
    status <> 200%Z -> oracle_failure (HttpReply status body text)
| oracle_error_payload (d : list (pystr * json)) (text : pystr) :
    dict_get d (str "authorized") = None ->
    oracle_failure (HttpReply 200 (JDict d) text).

Section FailClosed.

Variable cfg : config.

Lemma verdict_of_failure (w : world) (user_id : Z) :
  oracle_failure (net w (auth_url cfg) (auth_request user_id)) ->
  verdict cfg w user_id = Ok (JBool false).
Proof.
  intros H. unfold verdict. rewrite check_authorization_run. cbn [fst].
  inversion H as [e He | status body text Hs He | d text Hd He];
    cbn [reply_value].
  - reflexivity.
  - apply Z.eqb_neq in Hs. rewrite Hs. reflexivity.
  - cbn [Z.eqb Pos.eqb get_default]. now rewrite Hd.
Qed.


End FailClosed.


(** The IV a bundle carries, read as [decrypt_data] reads it. *)
Definition bundle_iv (encrypted_data : pystr) : result bytes :=
  (b64 <- loads encrypted_data ;;
   iv_value <- subscript b64 (str "iv") ;;
   b64decode_value iv_value)%result.

Lemma bundle_iv_bundle (iv ct : bytes) : bundle_iv (bundle iv ct) = Ok iv.
Proof.
  unfold bundle_iv, bundle.
  rewrite JsonFacts.loads_dumps_bundle by apply JsonFacts.b64encode_plain.
  cbn [rbind subscript dict_get].
  change (pystr_eqb (str "iv") (str "iv")) with true.
  cbn [rbind b64decode_value]. apply Base64Facts.b64decode_b64encode.
Qed.

Section RoundTrip.

Variable cfg : config.


End RoundTrip.


(** The invariant of the specification on the table: a turn of the user
    holds no full answer. *)
Definition user_turns_hold_no_answer (table : list row) : Prop :=
  forall r, In r table -> is_bot_message r = false -> full_answer r = None.

Section Persistence.

Variable cfg : config.

Lemma encrypt_data_dialogs (data : json) (w : world) :
  dialogs (snd (encrypt_data cfg data w)) = dialogs w.
Proof.
  destruct (encrypt_data_frame cfg data w) as [-> | ->]; reflexivity.
Qed.

Lemma snd_bind (A B : Type) (m : M A) (k : A -> M B) (w : world) :
  snd (bind m k w)
  = match m w with
    | (Ok a, w1) => snd (k a w1)
    | (Raise _, w1) => w1
    end.
Proof. unfold bind. now destruct (m w) as [[a|e] w1]. Qed.

Lemma try_finally_close_dialogs (A : Type) (body : M A) (w : world) :
  dialogs (snd (try_finally body close w)) = dialogs (snd (body w)).
Proof. unfold try_finally. now destruct (body w) as [r w1]. Qed.

(** [log_message] leaves the table as it was or adds one row, without a
    full answer and with the flag of the request. *)
Lemma log_message_table (w : world) (message : LogMessage.t) :
  dialogs (snd (log_message cfg message w)) = dialogs w
  \/ exists r,
      dialogs (snd (log_message cfg message w)) = dialogs w ++ [r]
      /\ full_answer r = None
      /\ is_bot_message r = LogMessage.is_bot_message message.
Proof.
  unfold log_message.
  rewrite (bind_run _ _ (tell_run EvConnect w)). cbv beta.
  rewrite try_finally_close_dialogs.
  rewrite (bind_run _ _ (uuid4_run _)). cbv beta.
  rewrite snd_bind.
  match goal with |- context [match ?et ?w2 with _ => _ end] =>
    assert (Het : dialogs (snd (et w2)) = dialogs w);
    [|destruct (et w2) as [[text|e] w3]; cbn [snd] in Het; [|now left]]
  end.
  { destruct (LogMessage.message_text message) as [|c text]; [reflexivity|].
    rewrite snd_bind.
    pose proof (encrypt_data_dialogs (JStr (c :: text))
                  (advance (add_events w [EvConnect]) 16)) as Hd.
    destruct (encrypt_data cfg _ _) as [[e|e] w3]; exact Hd. }
  rewrite (bind_run _ _ (get_world_run w3)). cbv beta.
  match goal with |- context [insert_row ?r] =>
    destruct (existsb (fun x => pystr_eqb (message_id x) (message_id r)) (dialogs w3))
      eqn:Hf;
    [rewrite (bind_raise _ _ (insert_row_refused r w3 Hf)); left; exact Het
    |rewrite (bind_run _ _ (insert_row_run r w3 Hf)); right; exists r]
  end.
  cbn [snd ret dialogs with_dialogs full_answer is_bot_message].
  now rewrite Het.
Qed.


End Persistence.



(** The request the gateway sends to log the message [Hello] of user 1. *)
Definition log_hello : LogMessage.t :=
  {| LogMessage.user_id := 1; LogMessage.chat_id := 5;
     LogMessage.message_text := str "Hello";
     LogMessage.is_bot_message := false |}.

Definition quiet_world : world :=
  sample_world [] (oracle_says true) (str "Hello there").

(** C5 at a failing input.  [process_message] writes the text of the user
    to the table as it is: the stored [message_text] is the plaintext
    [Hello], which [decrypt_data] refuses, whereas [log_message] stores for
    the same text a bundle that decrypts to it. *)
Theorem process_message_stores_plaintext :
  map message_text (dialogs (snd (process_message sample_config hello quiet_world)))
  = [Some (str "Hello")]
  /\ decrypt_data sample_config (str "Hello") = Raise JSONDecodeError
  /\ exists encrypted,
       map message_text (dialogs (snd (log_message sample_config log_hello quiet_world)))
       = [Some encrypted]
       /\ decrypt_data sample_config encrypted = Ok (str "Hello").
Proof.
  split; [vm_compute; reflexivity|].
  split; [vm_compute; reflexivity|].
  eexists. split.
  - vm_compute. reflexivity.
  - vm_compute. reflexivity.
Qed.

(** C7 at a failing input.  After [log_message] stored the message [Hello]
    of user 1 in chat 5, the context [process_message] builds for the next
    message of that chat holds, as the content of the earlier turn, the
    stored bundle and not the text it decrypts to; that context is what is
    posted to the generation service. *)
Theorem context_holds_ciphertext :
  let w := snd (log_message sample_config log_hello quiet_world) in
  exists encrypted,
    context_of w hello
    = [JDict [(str "role", JStr (str "user")); (str "content", JStr encrypted)];
       JDict [(str "role", JStr (str "user")); (str "content", JStr (str "Hello"))]]
    /\ decrypt_data sample_config encrypted = Ok (str "Hello")
    /\ encrypted <> str "Hello"
    /\ In (EvPost (ml_url sample_config) (ml_request 1 (str "Hello") (context_of w hello)))
          (trace (snd (process_message sample_config hello w))).
Proof.
  cbv zeta. eexists. split; [vm_compute; reflexivity|].
  split; [vm_compute; reflexivity|].
  split; [vm_compute; discriminate|].
  vm_compute. right. right. right. right. right. left. reflexivity.
Qed.

(** A bundle written under another key, as after a restart that generated
    a new key. *)
Definition stale_answer : pystr :=
  Eval vm_compute in
    match fst (encrypt_data
                 {| ML_SERVICE_URL := []; AUTH_SERVICE_URL := [];
                    ENCRYPTION_KEY := repeat x00 32 |}
                 (JStr (str "The full answer")) quiet_world) with
    | Ok e => e
    | Raise _ => []
    end.

Definition stale_row : row :=
  {| message_id := str "6f1c";
     user_id := 1;
     chat_id := 5;
     message_text := None;
     is_bot_message := true;
     sent_at := 900;
     delivered_at := None;
     read_at := None;
     full_answer := Some stale_answer |}.

(** C9 at a failing input.  User 1 is authorized and owns a turn whose
    full answer no longer decrypts under the key.  [get_full_answer]
    raises: the request ends as an internal error, without a log record
    and without a placeholder.  [get_dialog_history] on the same table
    logs the failure and returns the placeholder. *)
Theorem get_full_answer_raises_on_decryption_failure :
  let w := sample_world [stale_row] (oracle_says true) [] in
  let request := {| FullAnswerRequest.user_id := 1;
                    FullAnswerRequest.message_id := str "6f1c" |} in
  fst (get_full_answer sample_config request w) = Raise ValueError
  /\ dialogs (snd (get_full_answer sample_config request w)) = [stale_row]
  /\ (forall r, ~ In (EvLog r) (trace (snd (get_full_answer sample_config request w))))
  /\ fst (get_dialog_history sample_config 1 20 w)
     = Ok (JDict [(str "history",
                   JList [JDict [(str "message_id", JStr (str "6f1c"));
                                 (str "is_bot_message", JBool true);
                                 (str "sent_at", JInt 900);
                                 (str "full_answer", JStr decryption_error)]])])
  /\ In (EvLog (DecryptFullAnswerError ValueError))
        (trace (snd (get_dialog_history sample_config 1 20 w))).
Proof.
  cbv zeta. split; [vm_compute; reflexivity|].
  split; [vm_compute; reflexivity|].
  split.
  { intros r. vm_compute. intros H.
    repeat (destruct H as [H | H]; [discriminate H|]). exact H. }
  split; [vm_compute; reflexivity|].
  vm_compute. tauto.
Qed.

(* ================================================================= *)
(** ** The context window *)

(** [a] was sent no earlier than [b]. *)
Definition not_before (a b : row) : Prop := (sent_at b <= sent_at a)%Z.

Lemma insert_desc_perm (r : row) (l : list row) :
  Permutation (insert_desc r l) (r :: l).
Proof.
  induction l as [|x l IH]; cbn [insert_desc]; [reflexivity|].
  destruct (sent_at x <=? sent_at r)%Z; [reflexivity|].
  rewrite IH. apply perm_swap.
Qed.

Lemma insert_desc_sorted (r : row) (l : list row) :
  StronglySorted not_before l -> StronglySorted not_before (insert_desc r l).
Proof.
  induction 1 as [|x l Hl IH Hx]; cbn [insert_desc].
  - repeat constructor.
  - destruct (sent_at x <=? sent_at r)%Z eqn:E.
    + apply Z.leb_le in E. constructor; [now constructor|].
      constructor; [exact E|].
      eapply Forall_impl; [|exact Hx]. unfold not_before. intros; lia.
    + apply Z.leb_gt in E. constructor; [exact IH|].
      eapply Permutation_Forall; [symmetry; apply insert_desc_perm|].
      constructor; [unfold not_before; lia | exact Hx].
Qed.

Lemma order_by_sent_at_desc_perm (l : list row) :
  Permutation (order_by_sent_at_desc l) l.
Proof.
  induction l as [|r l IH]; cbn; [reflexivity|].
  rewrite insert_desc_perm. now constructor.
Qed.

Lemma order_by_sent_at_desc_sorted (l : list row) :
  StronglySorted not_before (order_by_sent_at_desc l).
Proof.
  induction l as [|r l IH]; cbn; [constructor|]. now apply insert_desc_sorted.
Qed.

Lemma sorted_app (A : Type) (R : A -> A -> Prop) (l1 l2 : list A) :
  StronglySorted R (l1 ++ l2) ->
  StronglySorted R l1
  /\ forall x y, In x l1 -> In y l2 -> R x y.
Proof.
  induction l1 as [|a l1 IH]; cbn [app]; intros H.
  - split; [constructor | intros x y []].
  - inversion H as [|? ? Hs Hall]; subst. destruct (IH Hs) as [IH1 IH2].
    apply Forall_app in Hall as [Ha1 Ha2]. split.
    + now constructor.
    + intros x y [<- | Hx] Hy; [|now apply IH2].
      rewrite Forall_forall in Ha2. now apply Ha2.
Qed.

Lemma sorted_rev_ascending (l : list row) :
  StronglySorted not_before l ->
  StronglySorted (fun a b => (sent_at a <= sent_at b)%Z) (rev l).
Proof.
  induction 1 as [|x l Hl IH Hx]; cbn [rev]; [constructor|].
  clear Hl. revert IH. assert (Hx' : Forall (not_before x) (rev l))
    by (eapply Permutation_Forall; [apply Permutation_rev | exact Hx]).
  revert Hx'. generalize (rev l) as k. clear.
  induction k as [|a k IH]; cbn [app]; intros Hx Hs.
  - repeat constructor.
  - inversion Hx; subst. inversion Hs; subst. constructor; [now apply IH|].
    apply Forall_app. split; [assumption|]. repeat constructor. assumption.
Qed.

(** The rows of the pair that the query leaves out. *)
Definition older_turns (table : list row) (p1 p2 : Z) : list row :=
  skipn 10 (order_by_sent_at_desc
              (filter (fun r => (user_id r =? p1)%Z && (chat_id r =? p2)%Z) table)).


(* ================================================================= *)
(** ** The history *)

Section History.

Variable cfg : config.

Lemma decrypting_run (encrypted_data : pystr) (w : world) :
  decrypting cfg encrypted_data w
  = (decrypt_data cfg encrypted_data, add_events w [EvDecrypt encrypted_data]).
Proof. reflexivity. Qed.

(** A decryption guarded by [try] and [except] always gives a text. *)
Lemma guarded_decrypting (encrypted_data : pystr) (record : exn -> log_record)
      (w : world) :
  exists text w',
    try_except (decrypting cfg encrypted_data)
               (fun e => (tell (EvLog (record e)) ;; ret decryption_error)%monad) w
    = (Ok text, w')
    /\ dialogs w' = dialogs w
    /\ (forall e, decrypt_data cfg encrypted_data = Raise e ->
                  text = decryption_error
                  /\ trace w' = trace w ++ [EvDecrypt encrypted_data;
                                            EvLog (record e)])
    /\ (forall x, decrypt_data cfg encrypted_data = Ok x -> text = x).
Proof.
  unfold try_except. rewrite decrypting_run.
  destruct (decrypt_data cfg encrypted_data) as [x|e].
  - eexists _, _. split; [reflexivity|]. split; [reflexivity|].
    split; [discriminate | now intros ? [= ->]].
  - rewrite (bind_run _ _ (tell_run _ _)). cbv beta. unfold ret.
    eexists _, _. split; [reflexivity|]. split; [reflexivity|]. split.
    + intros ? [= <-]. split; [reflexivity|].
      cbn [trace add_events]. now rewrite <- app_assoc.
    + discriminate.
Qed.

Lemma history_item_returns (authorized : json) (r : row) (w : world) :
  exists item w',
    history_item cfg authorized r w = (Ok item, w') /\ dialogs w' = dialogs w.
Proof.
  unfold history_item.
  assert (H1 : exists item1 w1,
             (match message_text r with
              | None | Some [] =>
                  ret [(str "message_id", JStr (message_id r));
                       (str "is_bot_message", JBool (is_bot_message r));
                       (str "sent_at", JInt (sent_at r))]
              | Some text =>
                  v <- try_except (decrypting cfg text)
                         (fun e => tell (EvLog (DecryptMessageError e)) ;;
                                   ret decryption_error) ;;
                  ret (dict_set [(str "message_id", JStr (message_id r));
                                 (str "is_bot_message", JBool (is_bot_message r));
                                 (str "sent_at", JInt (sent_at r))]
                                (str "message_text") (JStr v))
              end)%monad w = (Ok item1, w1) /\ dialogs w1 = dialogs w).
  { destruct (message_text r) as [[|c t]|].
    - eexists _, _. split; reflexivity.
    - destruct (guarded_decrypting (c :: t) DecryptMessageError w)
        as (text & w1 & E & Hd & _).
      rewrite (bind_run _ _ E). cbv beta. eexists _, _. split; [reflexivity | exact Hd].
    - eexists _, _. split; reflexivity. }
  destruct H1 as (item1 & w1 & E1 & Hd1).
  cbv zeta. rewrite (bind_run _ _ E1). cbv beta.
  destruct (full_answer r) as [[|c t]|].
  - rewrite (bind_run _ _ (eq_refl : ret item1 w1 = (Ok item1, w1))). cbv beta.
    eexists _, _. split; [reflexivity | exact Hd1].
  - destruct (truthy authorized && is_bot_message r).
    + destruct (guarded_decrypting (c :: t) DecryptFullAnswerError w1)
        as (text & w2 & E & Hd & _).
      unfold bind at 1. unfold bind at 1. rewrite E. cbv beta iota. unfold ret at 1.
      cbv beta iota. eexists _, _. split; [reflexivity|]. now rewrite Hd.
    + rewrite (bind_run _ _ (eq_refl : ret item1 w1 = (Ok item1, w1))). cbv beta.
      eexists _, _. split; [reflexivity | exact Hd1].
  - rewrite (bind_run _ _ (eq_refl : ret item1 w1 = (Ok item1, w1))). cbv beta.
    eexists _, _. split; [reflexivity | exact Hd1].
Qed.

Lemma history_items_return (authorized : json) (rows : list row) (w : world) :
  exists items w',
    history_items cfg authorized rows w = (Ok items, w')
    /\ dialogs w' = dialogs w
    /\ List.length items = List.length rows.
Proof.
  revert w. induction rows as [|r rows IH]; intros w; cbn [history_items].
  - eexists _, _. repeat split.
  - destruct (history_item_returns authorized r w) as (item & w1 & E1 & Hd1).
    destruct (IH w1) as (items & w2 & E2 & Hd2 & Hl).
    rewrite (bind_run _ _ E1). cbv beta. rewrite (bind_run _ _ E2). cbv beta.
    eexists _, _. split; [reflexivity|]. split; [congruence|]. cbn. now rewrite Hl.
Qed.


End History.

(* ================================================================= *)
(** ** Retrieval of a stored answer *)

(** The owner's query finds the row of a message id. *)
Lemma select_full_answer_own (table : list row) (r : row) :
  primary_key table -> In r table ->
  select_full_answer table (message_id r) (user_id r) = full_answer r.
Proof.
  intros Hpk Hin. unfold select_full_answer, primary_key in *.
  induction table as [|y table IH]; [contradiction|].
  cbn [map] in Hpk. apply NoDup_cons_iff in Hpk as [Hy Hpk].
  cbn [filter]. destruct Hin as [-> | Hin].
  - replace (pystr_eqb (message_id r) (message_id r)) with true
      by (symmetry; now apply pystr_eqb_eq).
    now rewrite Z.eqb_refl.
  - destruct (pystr_eqb (message_id y) (message_id r)) eqn:E.
    + exfalso. apply pystr_eqb_eq in E. apply Hy. rewrite E. now apply in_map.
    + cbn [andb]. now apply IH.
Qed.

Lemma update_read_at_run (p1 : pystr) (w : world) :
  update_read_at p1 w
  = (Ok tt, with_dialogs (add_events w [EvSql (UpdateReadAt p1)])
                         (map (stamp_read p1 (now w)) (dialogs w))).
Proof. reflexivity. Qed.

Section StoredAnswer.

Variable cfg : config.

(** An authorized request of the owner for a stored answer that decrypts:
    the answer is returned and the row is stamped as read. *)
Lemma get_full_answer_found (w : world) (request : FullAnswerRequest.t)
      (authorized : json) (c : N) (encrypted answer : pystr) :
  verdict cfg w (FullAnswerRequest.user_id request) = Ok authorized ->
  truthy authorized = true ->
  select_full_answer (dialogs w) (FullAnswerRequest.message_id request)
                     (FullAnswerRequest.user_id request) = Some (c :: encrypted) ->
  decrypt_data cfg (c :: encrypted) = Ok answer ->
  exists w',
    get_full_answer cfg request w
    = (Ok (JDict [(str "full_answer", JStr answer)]), w')
    /\ dialogs w'
       = map (stamp_read (FullAnswerRequest.message_id request) (now w)) (dialogs w).
Proof.
  intros Hv Ht Hs Hdec. unfold verdict in Hv. rewrite check_authorization_run in Hv.
  cbn [fst] in Hv. unfold get_full_answer.
  set (w1 := add_events w (auth_events cfg w (FullAnswerRequest.user_id request))).
  assert (E : check_authorization cfg (FullAnswerRequest.user_id request) w
              = (Ok authorized, w1))
    by (rewrite check_authorization_run; now rewrite Hv).
  rewrite (bind_run _ _ E). cbv beta. rewrite Ht. cbn [negb].
  rewrite (bind_run _ _ (tell_run EvConnect w1)). cbv beta.
  set (w2 := add_events w1 [EvConnect]).
  eexists. split.
  - eapply try_finally_run; [|reflexivity].
    rewrite (bind_run _ _ (fetch_full_answer_run _ _ w2)). cbv beta.
    change (dialogs w2) with (dialogs w). rewrite Hs.
    assert (E3 : decrypting cfg (c :: encrypted)
                   (add_events w2 [EvSql (SelectFullAnswer
                                            (FullAnswerRequest.message_id request)
                                            (FullAnswerRequest.user_id request))])
                 = (Ok answer, add_events
                                 (add_events w2 [EvSql (SelectFullAnswer
                                            (FullAnswerRequest.message_id request)
                                            (FullAnswerRequest.user_id request))])
                                 [EvDecrypt (c :: encrypted)]))
      by (rewrite decrypting_run; now rewrite Hdec).
    rewrite (bind_run _ _ E3). cbv beta.
    rewrite (bind_run _ _ (update_read_at_run _ _)). cbv beta. reflexivity.
  - reflexivity.
Qed.

(** A turn that [process_message] stored can be read back in full.  When
    the call returned, then in every later world that holds the table as
    the call left it, a request of the same user for the message id of the
    response, made while the oracle authorizes the user, returns the
    generated answer in full and stamps [read_at] on the row of the turn,
    whatever the verdict of the oracle was during the turn. *)
Theorem stored_answer_is_released_on_authorization
        (w w1 w2 : world) (m : Message.t) (response : json) (authorized : json) :
  primary_key (dialogs w) ->
  process_message cfg m w = (Ok response, w1) ->
  dialogs w2 = dialogs w1 ->
  verdict cfg w2 (Message.user_id m) = Ok authorized ->
  truthy authorized = true ->
  exists answer w3 r,
    generated cfg w m = Ok (JStr answer)
    /\ dict_get (match response with JDict d => d | _ => [] end) (str "message_id")
       = Some (JStr (new_id w))
    /\ get_full_answer cfg
         {| FullAnswerRequest.user_id := Message.user_id m;
            FullAnswerRequest.message_id := new_id w |} w2
       = (Ok (JDict [(str "full_answer", JStr answer)]), w3)
    /\ In r (dialogs w3)
    /\ message_id r = new_id w
    /\ read_at r = Some (now w2).
Proof.
  intros Hpk Hrun Hd Hv Ht.
  apply process_message_returns in Hrun
    as (answer & v & ct & Hk & Hgen & Hct & _ & Hfresh & -> & Hd1).
  set (enc := bundle (drawn (advance w 16) 16) ct) in *.
  assert (Hpk1 : primary_key (dialogs w1)).
  { rewrite Hd1. unfold primary_key in *. rewrite map_app. cbn [map].
    apply Permutation_NoDup with (l := new_id w :: map message_id (dialogs w));
      [apply Permutation_cons_append|].
    constructor; [|exact Hpk].
    unfold fresh_id in Hfresh. intros Hin. apply in_map_iff in Hin as (x & Hx & Hin).
    assert (existsb (fun x => pystr_eqb (message_id x) (new_id w)) (dialogs w) = true)
      by (apply existsb_exists; exists x; split; [exact Hin | now apply pystr_eqb_eq]).
    congruence. }
  assert (Hin : In (turn_row w m enc) (dialogs w2))
    by (rewrite Hd, Hd1; apply in_or_app; right; now left).
  assert (Hs : select_full_answer (dialogs w2) (new_id w) (Message.user_id m)
               = Some enc).
  { rewrite <- Hd in Hpk1.
    apply (select_full_answer_own (dialogs w2) (turn_row w m enc) Hpk1 Hin). }
  assert (Hdec : decrypt_data cfg enc = Ok answer)
    by (apply decrypt_data_bundle; [exact Hk | apply drawn_length | exact Hct]).
  assert (Hne : exists c t, enc = c :: t).
  { unfold enc, bundle.
    rewrite JsonFacts.dumps_bundle by apply JsonFacts.b64encode_plain. eauto. }
  destruct Hne as (c & t & Hne). rewrite Hne in Hs, Hdec.
  destruct (get_full_answer_found w2
              {| FullAnswerRequest.user_id := Message.user_id m;
                 FullAnswerRequest.message_id := new_id w |}
              authorized c t answer Hv Ht Hs Hdec) as (w3 & Hrun3 & Hd3).
  exists answer, w3, (stamp_read (new_id w) (now w2) (turn_row w m enc)).
  split; [exact Hgen|]. split.
  { unfold disclosure. destruct (truthy v); reflexivity. }
  split; [exact Hrun3|]. split.
  { rewrite Hd3. cbn [FullAnswerRequest.message_id]. now apply in_map. }
  unfold stamp_read. cbn [message_id turn_row].
  replace (pystr_eqb (new_id w) (new_id w)) with true
    by (symmetry; now apply pystr_eqb_eq).
  split; reflexivity.
Qed.

End StoredAnswer.

(** The example of the specification: user 1, not authorized, gets a
    preview of a 120-character answer; later, authorized, the user asks
    for the full answer. *)
Lemma stored_answer_is_released_on_authorization_witness :
  exists answer w3 r,
    generated sample_config (sample_world [] (oracle_says false) long_answer) hello
    = Ok (JStr answer)
    /\ get_full_answer sample_config
         {| FullAnswerRequest.user_id := 1;
            FullAnswerRequest.message_id :=
              new_id (sample_world [] (oracle_says false) long_answer) |}
         (sample_world
            (dialogs (snd (process_message sample_config hello
                             (sample_world [] (oracle_says false) long_answer))))
            (oracle_says true) [])
       = (Ok (JDict [(str "full_answer", JStr answer)]), w3)
    /\ In r (dialogs w3)
    /\ read_at r = Some 1000%Z.
Proof.
  destruct (stored_answer_is_released_on_authorization sample_config
              (sample_world [] (oracle_says false) long_answer)
              (snd (process_message sample_config hello
                      (sample_world [] (oracle_says false) long_answer)))
              (sample_world
                 (dialogs (snd (process_message sample_config hello
                                  (sample_world [] (oracle_says false) long_answer))))
                 (oracle_says true) [])
              hello
              (truncated_response (preview_of long_answer)
                 (new_id (sample_world [] (oracle_says false) long_answer)))
              (JBool true))
    as (answer & w3 & r & H1 & _ & H3 & H4 & _ & H6).
  - constructor.
  - vm_compute. reflexivity.
  - reflexivity.
  - reflexivity.
  - reflexivity.
  - exists answer, w3, r. repeat split; assumption.
Defined.


(* ================================================================= *)
(** ** Failure of the generation service *)

(** The ways a call to the generation service fails. *)
Inductive generation_failure : http_outcome -> Prop :=
| generation_unreachable (e : pystr) : generation_failure (HttpError e)
| generation_bad_status (status : Z) (body : json) (text : pystr) :
    status <> 200%Z -> generation_failure (HttpReply status body text).

Section Fallback.

Variable cfg : config.

Lemma apology_scalar : forallb Utf8.scalar apology = true.
Proof. vm_compute. reflexivity. Qed.


End Fallback.

(** The generation service is down while user 1, authorized, sends
    [Hello]. *)
Definition generation_down : world :=
  {| dialogs := [];
     net := fun url data =>
              if pystr_eqb url (auth_url sample_config) then oracle_says true
              else HttpError (str "Cannot connect to host");
     entropy := fun n => byte_of_N (N.of_nat (7 * n + 3));
     pos := 0;
     now := 1000;
     trace := [] |}.

